(** * GGUF bridge: conversion context lifecycle and dispatch

    A shallow embedding of [gguf_bridge.cpp] (with the declarations of
    [gguf_bridge.hpp]) and the properties of its public C API.

    Conventions of the embedding:
    - C strings are [string]s; a [const char*] is a [ptr] into a store of
      cells, or the address of a literal in static storage;
    - [float] values are only ever stored and loaded (never computed with), so
      the literals [0.0f], [0.1f], ... are kept as the rationals they denote;
    - the file system is a finite map from path strings to nodes, looked up
      verbatim; [std::filesystem]'s lexical operations follow the generic
      POSIX path format; its queries are the throwing overloads the code
      calls, and a query fails on a path whose status cannot be determined;
    - the user callbacks and the llama.cpp entry points are observable events
      of a trace; the replies of the backend come from an oracle carried by
      the world;
    - a call of an [extern "C"] function ends in one of three ways: it
      returns, a C++ exception leaves it, or its behaviour is undefined; an
      exception is of a class derived from [std::exception] or it is not,
      and a [catch (const std::exception&)] only stops the former;
    - calls are sequential: the atomic fields and the mutex-guarded stage
      label of a context are plain fields, and a callback does not call
      back into the API. *)

From Stdlib Require Import QArith Ascii Sorted.
From stdpp Require Import base numbers gmap strings list pretty.

Open Scope Z_scope.

(** ** Strings as the standard library handles them *)

Module Str.

Definition eqb (a b : string) : bool := bool_decide (a = b).

Fixpoint drop (n : nat) (s : string) : string :=
  match n, s with
  | O, _ => s
  | S n', String _ s' => drop n' s'
  | S _, EmptyString => EmptyString
  end.

Fixpoint take (n : nat) (s : string) : string :=
  match n, s with
  | S n', String a s' => String a (take n' s')
  | _, _ => EmptyString
  end.

(** [std::string::find(c)]: index of the first occurrence. *)
Fixpoint find (c : Ascii.ascii) (s : string) : option nat :=
  match s with
  | EmptyString => None
  | String a s' =>
      if bool_decide (a = c) then Some O else S <$> find c s'
  end.

(** [std::string::rfind(c)]: index of the last occurrence. *)
Fixpoint rfind (c : Ascii.ascii) (s : string) : option nat :=
  match s with
  | EmptyString => None
  | String a s' =>
      match rfind c s' with
      | Some i => Some (S i)
      | None => if bool_decide (a = c) then Some O else None
      end
  end.

(** [s.erase(remove_if(s.begin(), s.end(), p), s.end())]. *)
Fixpoint remove_if (p : Ascii.ascii → bool) (s : string) : string :=
  match s with
  | EmptyString => EmptyString
  | String a s' => if p a then remove_if p s' else String a (remove_if p s')
  end.

(** What [c_str()] shows to a C function: the characters before the first
    NUL. *)
Fixpoint c_str (s : string) : string :=
  match s with
  | EmptyString => EmptyString
  | String a s' =>
      if bool_decide (a = Ascii.zero) then EmptyString else String a (c_str s')
  end.

(** [std::getline] until the stream is exhausted: the lines of a text, a
    final newline not opening another line. *)
Fixpoint lines_aux (cur : string) (s : string) : list string :=
  match s with
  | EmptyString => if eqb cur "" then [] else [String.rev cur]
  | String a s' =>
      if bool_decide (a = "010"%char) then String.rev cur :: lines_aux "" s'
      else lines_aux (String a cur) s'
  end.

Definition lines (s : string) : list string := lines_aux "" s.

Fixpoint rstrip (c : Ascii.ascii) (s : string) : string :=
  match s with
  | EmptyString => EmptyString
  | String a s' =>
      let r := rstrip c s' in
      if eqb r "" && bool_decide (a = c) then EmptyString else String a r
  end.

Definition ends_with (c : Ascii.ascii) (s : string) : bool :=
  match rfind c s with
  | Some i => bool_decide (S i = String.length s)
  | None => false
  end.

End Str.

(** ** [std::filesystem::path], lexical part *)

Module Path.

(** [path::filename()]: what follows the last directory separator. *)
Definition filename (p : string) : string :=
  match Str.rfind "/" p with
  | Some i => Str.drop (S i) p
  | None => p
  end.

(** [path::extension()]: from the rightmost period of the file name to its
    end; empty for [.], [..], and for a file name whose only period is its
    first character. *)
Definition extension (p : string) : string :=
  let f := filename p in
  if Str.eqb f "." || Str.eqb f ".." then ""
  else match Str.rfind "." f with
       | Some (S i) => Str.drop (S i) f
       | _ => ""
       end.

(** [path::parent_path()]. *)
Definition parent_path (p : string) : string :=
  match Str.rfind "/" p with
  | None => ""
  | Some i =>
      let d := Str.rstrip "/" (Str.take i p) in
      if Str.eqb d "" then "/" else d
  end.

(** [operator/] with a relative right operand. *)
Definition append (p q : string) : string :=
  if Str.eqb p "" then q
  else if Str.ends_with "/" p then p +:+ q
  else p +:+ "/" +:+ q.

End Path.

(** ** Exceptions *)

(** The classes of [std::exception] the code meets, and [foreign] for a
    thrown object of any other type. *)
Inductive exn :=
| invalid_argument (what : string)
| out_of_range (what : string)
| filesystem_error (what : string)
| runtime_error (what : string)
| foreign (name : string).

Definition is_std_exception (e : exn) : bool :=
  match e with foreign _ => false | _ => true end.

(** [e.what()], for the classes that have it. *)
Definition what (e : exn) : string :=
  match e with
  | invalid_argument s | out_of_range s
  | filesystem_error s | runtime_error s => s
  | foreign _ => ""
  end.

(** The answer of a query that either yields a value or throws. *)
Inductive answer (A : Type) :=
| Yields (a : A)
| Fails (e : exn).
Arguments Yields {A} a.
Arguments Fails {A} e.

Definition then_ask {A B} (r : answer A) (k : A → answer B) : answer B :=
  match r with
  | Yields a => k a
  | Fails e => Fails e
  end.

Notation "x <~ r ;; k" := (then_ask r (λ x, k))
  (at level 100, r at next level, right associativity,
   format "'[v' x  <~  r  ;;  '/' k ']'").

(** [a || b] on two queries: [b] is only put when [a] yields false. *)
Definition or_else (a b : answer bool) : answer bool :=
  x <~ a ;; if x then Yields true else b.

(** ** The file system *)

(** What a path designates. A directory is [listable] when it can be
    opened for reading, a regular file [readable] likewise. [Denied] is a
    path whose status cannot be determined: [stat] fails on it with an error
    other than that the file does not exist (a directory on the way may not
    be searched, the name is too long, ...), and [reason] is the text of
    that error. A path outside the map does not exist. *)
Inductive node :=
| Directory (listable : bool)
| Regular (readable : bool) (content : string)
| Special
| Denied (reason : string).

Abbreviation filesystem := (gmap string node).

Module Fs.

(** [filesystem_error::what()] as the library words it. *)
Definition error (op reason p : string) : exn :=
  filesystem_error
    ("filesystem error: " +:+ op +:+ ": " +:+ reason +:+ " [" +:+ p +:+ "]").

(** [fs::exists(p)], [fs::is_directory(p)] and [fs::is_regular_file(p)]:
    the overloads without [error_code], which throw where the status cannot
    be determined. *)
Definition exists_ (fs : filesystem) (p : string) : answer bool :=
  match fs !! p with
  | None => Yields false
  | Some (Denied reason) => Fails (error "status" reason p)
  | Some _ => Yields true
  end.

Definition is_directory (fs : filesystem) (p : string) : answer bool :=
  match fs !! p with
  | Some (Directory _) => Yields true
  | Some (Denied reason) => Fails (error "status" reason p)
  | _ => Yields false
  end.

Definition is_regular_file (fs : filesystem) (p : string) : answer bool :=
  match fs !! p with
  | Some (Regular _ _) => Yields true
  | Some (Denied reason) => Fails (error "status" reason p)
  | _ => Yields false
  end.

(** [fs::file_size(p)], which throws on anything but a regular file. *)
Definition file_size (fs : filesystem) (p : string) : answer Z :=
  match fs !! p with
  | Some (Regular _ c) => Yields (Z.of_nat (String.length c))
  | Some (Directory _) =>
      Fails (error "cannot get file size" "Is a directory" p)
  | Some Special =>
      Fails (error "cannot get file size" "Operation not supported" p)
  | Some (Denied reason) => Fails (error "cannot get file size" reason p)
  | None =>
      Fails (error "cannot get file size" "No such file or directory" p)
  end.

(** [std::ifstream file(p)] with [file.is_open()], and what the stream then
    yields: a readable regular file gives its content; a directory that can
    be opened opens, but every read fails; anything else counts as not
    opened. Nothing is thrown. *)
Definition open_read (fs : filesystem) (p : string) : option string :=
  match fs !! p with
  | Some (Regular true content) => Some content
  | Some (Directory true) => Some EmptyString
  | _ => None
  end.

(** The entries a [recursive_directory_iterator] on [p] has to visit:
    every path strictly below [p]. *)
Definition below (p : string) (q : string) : bool :=
  let d := if Str.ends_with "/" p then p else p +:+ "/" in
  String.prefix d q && negb (Str.eqb d q).

Definition recursive_entries (fs : filesystem) (p : string) : list string :=
  filter (λ q, below p q = true) (fst <$> map_to_list fs).

(** The constructor [recursive_directory_iterator(p)], which throws when
    [p] cannot be opened as a directory. *)
Definition open_recursive (fs : filesystem) (p : string)
  : answer (list string) :=
  let op := "recursive directory iterator cannot open directory" in
  match fs !! p with
  | Some (Directory true) => Yields (recursive_entries fs p)
  | Some (Directory false) => Fails (error op "Permission denied" p)
  | Some (Denied reason) => Fails (error op reason p)
  | Some _ => Fails (error op "Not a directory" p)
  | None => Fails (error op "No such file or directory" p)
  end.

(** The iterator's [operator++] past [entry], which throws when [entry] is
    a directory it cannot open. *)
Definition descend (fs : filesystem) (entry : string) : answer unit :=
  match fs !! entry with
  | Some (Directory false) =>
      Fails (error "cannot increment recursive directory iterator"
               "Permission denied" entry)
  | _ => Yields tt
  end.

End Fs.

(** ** Format detection *)

Definition detect_format_impl (fs : filesystem) (path : string)
  : answer string :=
  found <~ Fs.exists_ fs path ;;
  if negb found then Yields ""
  else if Str.eqb (Path.extension path) ".gguf" then Yields "gguf"
  else
    dir <~ Fs.is_directory fs path ;;
    in_dir <~
      (if dir then
         weights <~
           or_else
             (or_else (Fs.exists_ fs (Path.append path "pytorch_model.bin"))
                (Fs.exists_ fs (Path.append path "model.safetensors")))
             (Fs.exists_ fs
                (Path.append path "pytorch_model-00001-of-00002.bin")) ;;
         if weights then
           safetensors <~
             Fs.exists_ fs (Path.append path "model.safetensors") ;;
           Yields (Some (if safetensors then "safetensors" else "pytorch"))
         else
           tensorflow <~
             or_else (Fs.exists_ fs (Path.append path "saved_model.pb"))
               (Fs.exists_ fs (Path.append path "tf_model.h5")) ;;
           if tensorflow then Yields (Some "tensorflow")
           else
             flax <~ Fs.exists_ fs (Path.append path "flax_model.msgpack") ;;
             Yields (if flax then Some "flax" else None)
       else Yields None) ;;
    match in_dir with
    | Some tag => Yields tag
    | None =>
        let ext := Path.extension path in
        Yields
          (if Str.eqb ext ".bin" || Str.eqb ext ".pt" || Str.eqb ext ".pth"
           then "pytorch"
           else if Str.eqb ext ".safetensors" then "safetensors"
           else if Str.eqb ext ".h5" || Str.eqb ext ".pb" then "tensorflow"
           else if Str.eqb ext ".msgpack" then "flax"
           else "")
    end.

Example extension_samples :
  Path.extension "models/llama.gguf" = ".gguf" ∧
  Path.extension "a.b/model" = "" ∧
  Path.extension "dir/.hidden" = "" ∧
  Path.extension "x.tar.gz" = ".gz" ∧
  Path.extension ".." = "" ∧
  Path.parent_path "a/b/model.bin" = "a/b" ∧
  Path.parent_path "model.bin" = "" ∧
  Path.parent_path "/model.bin" = "/" ∧
  Path.append "a/b" "config.json" = "a/b/config.json" ∧
  Path.append "" "config.json" = "config.json".
Proof. repeat split; reflexivity. Qed.

Example detect_samples :
  detect_format_impl {[ "m" := Directory true;
                        "m/model.safetensors" := Regular true "" ]} "m"
    = Yields "safetensors" ∧
  detect_format_impl {[ "m" := Directory true;
                        "m/pytorch_model.bin" := Regular true "" ]} "m"
    = Yields "pytorch" ∧
  detect_format_impl {[ "w.pth" := Regular true "" ]} "w.pth"
    = Yields "pytorch" ∧
  detect_format_impl {[ "w.txt" := Regular true "" ]} "w.txt" = Yields "" ∧
  detect_format_impl
    {[ "m" := Directory true;
       "m/pytorch_model.bin" := Regular true "";
       "m/pytorch_model-00001-of-00002.bin" := Denied "Permission denied" ]}
    "m"
    = Yields "pytorch" ∧
  detect_format_impl {[ "m" := Directory true;
                        "m/model.safetensors" := Denied "Permission denied" ]}
    "m"
    = Fails (Fs.error "status" "Permission denied" "m/model.safetensors").
Proof. repeat split; vm_compute; reflexivity. Qed.

(** ** Declarations of [gguf_bridge.hpp] *)

Definition GGUF_SUCCESS : Z := 0.
Definition GGUF_ERROR_INVALID_ARGS : Z := -1.
Definition GGUF_ERROR_FILE_NOT_FOUND : Z := -2.
Definition GGUF_ERROR_INVALID_FORMAT : Z := -3.
Definition GGUF_ERROR_CONVERSION_FAILED : Z := -4.
Definition GGUF_ERROR_OUT_OF_MEMORY : Z := -5.
Definition GGUF_ERROR_CANCELLED : Z := -6.
Definition GGUF_ERROR_UNSUPPORTED_ARCH : Z := -7.
Definition GGUF_ERROR_INVALID_QUANTIZATION : Z := -8.
Definition GGUF_ERROR_IO_ERROR : Z := -9.
Definition GGUF_ERROR_UNKNOWN : Z := -99.

(** A [const char*] (or [const char**], or a pointer to a caller's struct):
    null, the address of a string literal, or an address of the store. *)
Inductive ptr :=
| NULL
| Static (s : string)
| Heap (a : positive).

Definition is_null (p : ptr) : bool :=
  match p with NULL => true | _ => false end.

Record gguf_conversion_params_t := {
  input_path : ptr;
  output_path : ptr;
  model_type : ptr;
  quantization : ptr;
  vocab_only : Z;
  use_mmap : Z;
  num_threads : Z;
  vocab_type : ptr;
  pad_vocab : Z;
  metadata_overrides : ptr;
  progress_cb : option positive;
  log_cb : option positive;
  user_data : Z }.

Record gguf_model_info_t := {
  mi_model_type : string;
  mi_architecture : string;
  mi_parameter_count : Z;
  mi_num_layers : Z;
  mi_hidden_size : Z;
  mi_vocab_size : Z;
  mi_context_length : Z;
  mi_quantization : string;
  mi_file_size : Z }.

(** [memset(info, 0, sizeof(gguf_model_info_t))]. *)
Definition zero_info : gguf_model_info_t :=
  {| mi_model_type := ""; mi_architecture := ""; mi_parameter_count := 0;
     mi_num_layers := 0; mi_hidden_size := 0; mi_vocab_size := 0;
     mi_context_length := 0; mi_quantization := ""; mi_file_size := 0 |}.

(** ** The part of [llama.h] the bridge names *)

Inductive llama_ftype :=
| LLAMA_FTYPE_ALL_F32
| LLAMA_FTYPE_MOSTLY_F16
| LLAMA_FTYPE_MOSTLY_Q8_0
| LLAMA_FTYPE_MOSTLY_Q4_0
| LLAMA_FTYPE_MOSTLY_Q4_1
| LLAMA_FTYPE_MOSTLY_Q5_0
| LLAMA_FTYPE_MOSTLY_Q5_1
| LLAMA_FTYPE_MOSTLY_Q2_K
| LLAMA_FTYPE_MOSTLY_Q3_K_S
| LLAMA_FTYPE_MOSTLY_Q3_K_M
| LLAMA_FTYPE_MOSTLY_Q3_K_L
| LLAMA_FTYPE_MOSTLY_Q4_K_S
| LLAMA_FTYPE_MOSTLY_Q4_K_M
| LLAMA_FTYPE_MOSTLY_Q5_K_S
| LLAMA_FTYPE_MOSTLY_Q5_K_M
| LLAMA_FTYPE_MOSTLY_Q6_K.

(** ** Static data of [gguf_bridge.cpp] *)

Definition GGUF_BRIDGE_VERSION : string := "1.0.0".

Definition QUANTIZATION_TYPES : list string :=
  [ "f32"; "f16";
    "q4_0"; "q4_1"; "q5_0"; "q5_1";
    "q8_0"; "q8_1";
    "q2_k"; "q3_k_s"; "q3_k_m"; "q3_k_l";
    "q4_k_s"; "q4_k_m";
    "q5_k_s"; "q5_k_m";
    "q6_k" ].

(** ** The conversion context *)

Record gguf_conversion_ctx := {
  params : gguf_conversion_params_t;
  progress : Q;
  cancelled : bool;
  current_stage : string }.

(** The handle [gguf_ctx_t]: [None] is the null handle. *)
Abbreviation gguf_ctx_t := (option positive).

(** ** Worlds, events and outcomes *)

Inductive cell :=
| CStr (s : string)
| CArr (elems : list ptr)
| CInfo (i : gguf_model_info_t).

Inductive event :=
| ProgressCb (cb : positive) (p : Q) (stage : option string) (data : Z)
| LogCb (cb : positive) (level : Z) (message : string) (data : Z)
| LlamaBackendInit
| LlamaBackendFree
| System (cmd : string)
| LlamaModelQuantize (fname_inp fname_out : string)
                     (ftype : llama_ftype) (nthread : Z).

(** Whether an event enters the conversion backend. *)
Definition is_backend_event (e : event) : bool :=
  match e with
  | ProgressCb _ _ _ _ | LogCb _ _ _ _ => false
  | _ => true
  end.

Inductive outcome (A : Type) :=
| Returns (a : A)
| Throws (e : exn)
| Undefined.
Arguments Returns {A} a.
Arguments Throws {A} e.
Arguments Undefined {A}.

(** What the environment answers: the exit status of the command run by
    [system], the return value of [llama_model_quantize] (or the exception
    it lets through, of whatever type), and the file system each leaves
    behind. [source_dir]
    is [fs::path(__FILE__).parent_path().string()]. *)
Inductive reply :=
| Exit (code : Z)
| Raise (e : exn).

Record backend := {
  source_dir : string;
  run_system : string → filesystem → Z * filesystem;
  run_quantize : string → string → llama_ftype → Z → filesystem →
                 reply * filesystem }.

Record world := {
  w_fs : filesystem;
  w_heap : gmap positive cell;
  w_ctxs : gmap positive gguf_conversion_ctx;
  g_last_error : string;
  format_str : string;
  w_trace : list event;
  w_backend : backend }.

Definition with_fs (fs : filesystem) (w : world) : world :=
  {| w_fs := fs; w_heap := w_heap w; w_ctxs := w_ctxs w;
     g_last_error := g_last_error w; format_str := format_str w;
     w_trace := w_trace w; w_backend := w_backend w |}.

Definition with_heap (h : gmap positive cell) (w : world) : world :=
  {| w_fs := w_fs w; w_heap := h; w_ctxs := w_ctxs w;
     g_last_error := g_last_error w; format_str := format_str w;
     w_trace := w_trace w; w_backend := w_backend w |}.

Definition with_ctxs (c : gmap positive gguf_conversion_ctx) (w : world)
  : world :=
  {| w_fs := w_fs w; w_heap := w_heap w; w_ctxs := c;
     g_last_error := g_last_error w; format_str := format_str w;
     w_trace := w_trace w; w_backend := w_backend w |}.

Definition with_last_error (s : string) (w : world) : world :=
  {| w_fs := w_fs w; w_heap := w_heap w; w_ctxs := w_ctxs w;
     g_last_error := s; format_str := format_str w;
     w_trace := w_trace w; w_backend := w_backend w |}.

Definition with_format_str (s : string) (w : world) : world :=
  {| w_fs := w_fs w; w_heap := w_heap w; w_ctxs := w_ctxs w;
     g_last_error := g_last_error w; format_str := s;
     w_trace := w_trace w; w_backend := w_backend w |}.

Definition with_trace (t : list event) (w : world) : world :=
  {| w_fs := w_fs w; w_heap := w_heap w; w_ctxs := w_ctxs w;
     g_last_error := g_last_error w; format_str := format_str w;
     w_trace := t; w_backend := w_backend w |}.

Arguments with_fs _ _ /.
Arguments with_heap _ _ /.
Arguments with_ctxs _ _ /.
Arguments with_last_error _ _ /.
Arguments with_format_str _ _ /.
Arguments with_trace _ _ /.

(** ** The monad of the bridge's functions *)

Definition M (A : Type) : Type := world → outcome A * world.

Definition ret {A} (a : A) : M A := λ w, (Returns a, w).

Definition bind {A B} (m : M A) (k : A → M B) : M B :=
  λ w, match m w with
       | (Returns a, w') => k a w'
       | (Throws e, w') => (Throws e, w')
       | (Undefined, w') => (Undefined, w')
       end.

Definition throw {A} (e : exn) : M A := λ w, (Throws e, w).
Definition undefined {A} : M A := λ w, (Undefined, w).

(** [try { body } catch (const std::exception& e) { handler }]: an
    exception of another type passes through. *)
Definition try_catch {A} (body : M A) (handler : exn → M A) : M A :=
  λ w, match body w with
       | (Throws e, w') =>
           if is_std_exception e then handler e w' else (Throws e, w')
       | r => r
       end.

Notation "x <- m ;; k" := (bind m (λ x, k))
  (at level 100, m at next level, right associativity,
   format "'[v' x  <-  m  ;;  '/' k ']'").
Notation "m ;;; k" := (bind m (λ _, k))
  (at level 100, right associativity,
   format "'[v' m  ;;;  '/' k ']'").

Definition get {A} (f : world → A) : M A := λ w, (Returns (f w), w).
Definition modify (f : world → world) : M unit := λ w, (Returns tt, f w).
Definition emit (e : event) : M unit :=
  modify (λ w, with_trace (w_trace w ++ [e]) w).
Definition when (b : bool) (m : M unit) : M unit := if b then m else ret tt.

(** A query put from the code: its value, or its exception thrown. *)
Definition ask {A} (r : answer A) : M A :=
  λ w, match r with
       | Yields a => (Returns a, w)
       | Fails e => (Throws e, w)
       end.

(** ** Memory primitives *)

(** The C string a pointer designates in a store, if it designates one. *)
Definition cstr_at (h : gmap positive cell) (p : ptr) : option string :=
  match p with
  | NULL => None
  | Static s => Some s
  | Heap a => match h !! a with Some (CStr s) => Some s | _ => None end
  end.

(** Reading through a [const char*]; null or dangling is undefined. *)
Definition read_cstr (p : ptr) : M string :=
  λ w, match cstr_at (w_heap w) p with
       | Some s => (Returns s, w)
       | None => (Undefined, w)
       end.

(** [strdup]: a fresh cell holding a copy (allocation failure is not
    modelled). *)
Definition strdup (p : ptr) : M ptr :=
  s <- read_cstr p ;;
  λ w, let a := fresh (dom (w_heap w)) in
       (Returns (Heap a), with_heap (<[a := CStr s]> (w_heap w)) w).

(** [free] of a pointer obtained from [strdup]. *)
Definition free (p : ptr) : M unit :=
  λ w, match p with
       | Heap a =>
           match w_heap w !! a with
           | Some _ => (Returns tt, with_heap (delete a (w_heap w)) w)
           | None => (Undefined, w)
           end
       | _ => (Undefined, w)
       end.

Definition read_info (p : ptr) : M gguf_model_info_t :=
  λ w, match p with
       | Heap a =>
           match w_heap w !! a with
           | Some (CInfo i) => (Returns i, w)
           | _ => (Undefined, w)
           end
       | _ => (Undefined, w)
       end.

Definition write_info (p : ptr) (i : gguf_model_info_t) : M unit :=
  read_info p ;;;
  match p with
  | Heap a => modify (λ w, with_heap (<[a := CInfo i]> (w_heap w)) w)
  | _ => undefined
  end.

Definition modify_info (p : ptr) (f : gguf_model_info_t → gguf_model_info_t)
  : M unit :=
  i <- read_info p ;; write_info p (f i).

(** ** Context primitives *)

Definition ctx_get (h : positive) : M gguf_conversion_ctx :=
  λ w, match w_ctxs w !! h with
       | Some c => (Returns c, w)
       | None => (Undefined, w)
       end.

Definition ctx_modify (h : positive)
    (f : gguf_conversion_ctx → gguf_conversion_ctx) : M unit :=
  c <- ctx_get h ;;
  modify (λ w, with_ctxs (<[h := f c]> (w_ctxs w)) w).

(** [new gguf_conversion_ctx()] followed by [ctx->params = *params]. *)
Definition ctx_new (p : gguf_conversion_params_t) : M positive :=
  λ w, let h := fresh (dom (w_ctxs w)) in
       (Returns h,
        with_ctxs (<[h := {| params := p; progress := 0%Q;
                             cancelled := false;
                             current_stage := "" |}]> (w_ctxs w)) w).

Definition set_progress (h : positive) (p : Q) (stage : option string)
  : M unit :=
  c <- ctx_get h ;;
  modify (λ w, with_ctxs (<[h :=
    {| params := params c; progress := p; cancelled := cancelled c;
       current_stage := default (current_stage c) stage |}]> (w_ctxs w)) w) ;;;
  match progress_cb (params c) with
  | Some cb => emit (ProgressCb cb p stage (user_data (params c)))
  | None => ret tt
  end.

Definition log (h : positive) (level : Z) (message : string) : M unit :=
  c <- ctx_get h ;;
  match log_cb (params c) with
  | Some cb => emit (LogCb cb level message (user_data (params c)))
  | None => ret tt
  end.

Definition set_error (msg : string) : M unit := modify (with_last_error msg).

(** ** The llama.cpp entry points and [system] *)

Definition llama_backend_init : M unit := emit LlamaBackendInit.
Definition llama_backend_free : M unit := emit LlamaBackendFree.

Definition system (cmd : string) : M Z :=
  emit (System cmd) ;;;
  λ w, let '(r, fs') := run_system (w_backend w) cmd (w_fs w) in
       (Returns r, with_fs fs' w).

Definition llama_model_quantize (fname_inp fname_out : string)
    (ftype : llama_ftype) (nthread : Z) : M Z :=
  emit (LlamaModelQuantize fname_inp fname_out ftype nthread) ;;;
  λ w, let '(r, fs') :=
         run_quantize (w_backend w) fname_inp fname_out ftype nthread (w_fs w)
       in (match r with Exit code => Returns code | Raise e => Throws e end,
           with_fs fs' w).

(** ** [std::stoul] *)

Definition ULONG_MAX : Z := 2 ^ 64 - 1.

Fixpoint skip_space (s : string) : string :=
  match s with
  | String a s' => if Ascii.is_space a then skip_space s' else s
  | EmptyString => s
  end.

Definition digit_of (a : ascii) : option Z :=
  match Ascii.is_nat a with
  | Some n => Some (Z.of_nat n)
  | None => None
  end.

(** The longest prefix of decimal digits, most significant first. *)
Fixpoint digits (s : string) : list Z :=
  match s with
  | String a s' =>
      match digit_of a with
      | Some d => d :: digits s'
      | None => []
      end
  | EmptyString => []
  end.

Definition digits_value (ds : list Z) : Z :=
  fold_left (λ acc d, 10 * acc + d) ds 0.

(** [std::stoul(str)], base 10: [strtoul] skips white space, takes an
    optional sign and the digits; no digit is [invalid_argument], a value
    above [ULONG_MAX] is [out_of_range], a minus sign negates in
    [unsigned long]. *)
Definition stoul (str : string) : M Z :=
  let s := skip_space (Str.c_str str) in
  let '(neg, s) :=
    match s with
    | String "-" s' => (true, s')
    | String "+" s' => (false, s')
    | _ => (false, s)
    end in
  match digits s with
  | [] => throw (invalid_argument "stoul")
  | ds =>
      let v := digits_value ds in
      if ULONG_MAX <? v then throw (out_of_range "stoul")
      else ret (if neg then (- v) mod 2 ^ 64 else v)
  end.

Example stoul_4096 w : stoul "4096" w = (Returns 4096, w).
Proof. reflexivity. Qed.

Example stoul_null w : stoul "null" w = (Throws (invalid_argument "stoul"), w).
Proof. reflexivity. Qed.

Example stoul_huge w :
  stoul "18446744073709551616" w = (Throws (out_of_range "stoul"), w).
Proof. reflexivity. Qed.

(** ** Metadata extraction from the sidecar [config.json] *)

Definition dquote : ascii := "034"%char.

Definition strip_key (c : ascii) : bool :=
  bool_decide (c = dquote) || bool_decide (c = " "%char)
  || bool_decide (c = "009"%char).

Definition strip_value (c : ascii) : bool :=
  bool_decide (c = dquote) || bool_decide (c = ","%char)
  || bool_decide (c = " "%char) || bool_decide (c = "009"%char).

(** One turn of the [getline] loop. *)
Definition parse_line (config : gmap string string) (line : string)
  : gmap string string :=
  match Str.find ":" line with
  | Some colon =>
      let key := Str.remove_if strip_key (Str.take colon line) in
      let value := Str.remove_if strip_value (Str.drop (S colon) line) in
      <[key := value]> config
  | None => config
  end.

Definition parse_config (content : string) : gmap string string :=
  fold_left parse_line (Str.lines content) ∅.

(** [strncpy(dst, src.c_str(), sizeof(dst) - 1)] into a zeroed buffer. *)
Definition strncpy (src : string) (n : nat) : string :=
  Str.take n (Str.c_str src).

Definition set_mi_model_type (s : string) (i : gguf_model_info_t) :=
  {| mi_model_type := s; mi_architecture := mi_architecture i;
     mi_parameter_count := mi_parameter_count i;
     mi_num_layers := mi_num_layers i; mi_hidden_size := mi_hidden_size i;
     mi_vocab_size := mi_vocab_size i;
     mi_context_length := mi_context_length i;
     mi_quantization := mi_quantization i; mi_file_size := mi_file_size i |}.

Definition set_mi_architecture (s : string) (i : gguf_model_info_t) :=
  {| mi_model_type := mi_model_type i; mi_architecture := s;
     mi_parameter_count := mi_parameter_count i;
     mi_num_layers := mi_num_layers i; mi_hidden_size := mi_hidden_size i;
     mi_vocab_size := mi_vocab_size i;
     mi_context_length := mi_context_length i;
     mi_quantization := mi_quantization i; mi_file_size := mi_file_size i |}.

Definition set_mi_num_layers (n : Z) (i : gguf_model_info_t) :=
  {| mi_model_type := mi_model_type i; mi_architecture := mi_architecture i;
     mi_parameter_count := mi_parameter_count i;
     mi_num_layers := n; mi_hidden_size := mi_hidden_size i;
     mi_vocab_size := mi_vocab_size i;
     mi_context_length := mi_context_length i;
     mi_quantization := mi_quantization i; mi_file_size := mi_file_size i |}.

Definition set_mi_hidden_size (n : Z) (i : gguf_model_info_t) :=
  {| mi_model_type := mi_model_type i; mi_architecture := mi_architecture i;
     mi_parameter_count := mi_parameter_count i;
     mi_num_layers := mi_num_layers i; mi_hidden_size := n;
     mi_vocab_size := mi_vocab_size i;
     mi_context_length := mi_context_length i;
     mi_quantization := mi_quantization i; mi_file_size := mi_file_size i |}.

Definition set_mi_vocab_size (n : Z) (i : gguf_model_info_t) :=
  {| mi_model_type := mi_model_type i; mi_architecture := mi_architecture i;
     mi_parameter_count := mi_parameter_count i;
     mi_num_layers := mi_num_layers i; mi_hidden_size := mi_hidden_size i;
     mi_vocab_size := n;
     mi_context_length := mi_context_length i;
     mi_quantization := mi_quantization i; mi_file_size := mi_file_size i |}.

Definition set_mi_context_length (n : Z) (i : gguf_model_info_t) :=
  {| mi_model_type := mi_model_type i; mi_architecture := mi_architecture i;
     mi_parameter_count := mi_parameter_count i;
     mi_num_layers := mi_num_layers i; mi_hidden_size := mi_hidden_size i;
     mi_vocab_size := mi_vocab_size i;
     mi_context_length := n;
     mi_quantization := mi_quantization i; mi_file_size := mi_file_size i |}.

Definition set_mi_file_size (n : Z) (i : gguf_model_info_t) :=
  {| mi_model_type := mi_model_type i; mi_architecture := mi_architecture i;
     mi_parameter_count := mi_parameter_count i;
     mi_num_layers := mi_num_layers i; mi_hidden_size := mi_hidden_size i;
     mi_vocab_size := mi_vocab_size i;
     mi_context_length := mi_context_length i;
     mi_quantization := mi_quantization i; mi_file_size := n |}.

(** [if (config.count(k)) { ... config[k] ... }]. *)
Definition if_key (config : gmap string string) (k : string)
    (f : string → M unit) : M unit :=
  match config !! k with
  | Some v => f v
  | None => ret tt
  end.

(** A [uint32_t] field receiving the [unsigned long] of [std::stoul]. *)
Definition store_u32 (info : ptr) (set : Z → gguf_model_info_t → gguf_model_info_t)
    (v : string) : M unit :=
  n <- stoul v ;; modify_info info (set (n mod 2 ^ 32)).

Definition extract_model_info (path : string) (info : ptr) : M bool :=
  fs <- get w_fs ;;
  dir <- ask (Fs.is_directory fs path) ;;
  let config_path :=
    if dir then Path.append path "config.json"
    else Path.append (Path.parent_path path) "config.json" in
  found <- ask (Fs.exists_ fs config_path) ;;
  if negb found then ret false
  else
    match Fs.open_read fs config_path with
    | None => ret false
    | Some content =>
        let config := parse_config content in
        if_key config "model_type" (λ v,
          modify_info info (set_mi_model_type (strncpy v 63))) ;;;
        if_key config "architectures" (λ v,
          modify_info info (set_mi_architecture (strncpy v 63))) ;;;
        if_key config "hidden_size" (store_u32 info set_mi_hidden_size) ;;;
        if_key config "num_hidden_layers" (store_u32 info set_mi_num_layers) ;;;
        if_key config "vocab_size" (store_u32 info set_mi_vocab_size) ;;;
        if_key config "max_position_embeddings"
          (store_u32 info set_mi_context_length) ;;;
        ret true
    end.

(** A text from its lines, and a word between double quotes. *)
Definition unlines (ls : list string) : string :=
  fold_right (λ l acc, l +:+ String "010" acc) EmptyString ls.

Definition quoted (s : string) : string :=
  String dquote (s +:+ String dquote EmptyString).

Example parse_config_sample :
  parse_config (unlines
    [ "{";
      "  " +:+ quoted "model_type" +:+ ": " +:+ quoted "llama" +:+ ",";
      "  " +:+ quoted "hidden_size" +:+ ": 4096,";
      "}" ])
  = {[ "model_type" := "llama"; "hidden_size" := "4096" ]}.
Proof. vm_compute. reflexivity. Qed.

(** ** Public API *)

Definition gguf_version : string := GGUF_BRIDGE_VERSION.

Definition gguf_get_last_error : M string := get g_last_error.

Definition gguf_clear_error : M unit := modify (with_last_error EmptyString).

Definition gguf_available_quantizations : list string := QUANTIZATION_TYPES.

(** The caller's struct is passed as its content, [None] for a null
    pointer; the result is the content the call leaves in it. *)
Definition gguf_default_params (params : option gguf_conversion_params_t)
  : M (option gguf_conversion_params_t) :=
  match params with
  | None => ret None
  | Some _ =>
      ret (Some {| input_path := NULL; output_path := NULL;
                   model_type := NULL; quantization := Static "f16";
                   vocab_only := 0; use_mmap := 1; num_threads := 0;
                   vocab_type := NULL; pad_vocab := 0;
                   metadata_overrides := NULL; progress_cb := None;
                   log_cb := None; user_data := 0 |})
  end.

(** [if (params->f) ctx->params.f = strdup(params->f);] on the copy taken by
    [ctx->params = *params]. *)
Definition dup_field (p : ptr) : M ptr :=
  if is_null p then ret p else strdup p.

Definition gguf_create_context (params : option gguf_conversion_params_t)
  : M gguf_ctx_t :=
  match params with
  | None =>
      set_error "Invalid parameters: input_path and output_path are required" ;;;
      ret None
  | Some p =>
      if is_null (input_path p) || is_null (output_path p) then
        set_error "Invalid parameters: input_path and output_path are required" ;;;
        ret None
      else
        inp <- read_cstr (input_path p) ;;
        fs <- get w_fs ;;
        found <- ask (Fs.exists_ fs inp) ;;
        if negb found then
          set_error ("Input path not found: " +:+ inp) ;;;
          ret None
        else
          h <- ctx_new p ;;
          ip <- dup_field (input_path p) ;;
          op <- dup_field (output_path p) ;;
          mt <- dup_field (model_type p) ;;
          qt <- dup_field (quantization p) ;;
          vt <- dup_field (vocab_type p) ;;
          ctx_modify h (λ c,
            {| params :=
                 {| input_path := ip; output_path := op; model_type := mt;
                    quantization := qt; vocab_only := vocab_only p;
                    use_mmap := use_mmap p; num_threads := num_threads p;
                    vocab_type := vt; pad_vocab := pad_vocab p;
                    metadata_overrides := metadata_overrides p;
                    progress_cb := progress_cb p; log_cb := log_cb p;
                    user_data := user_data p |};
               progress := progress c; cancelled := cancelled c;
               current_stage := current_stage c |}) ;;;
          out <- read_cstr (output_path p) ;;
          log h 1 ("Created conversion context: " +:+ inp +:+ " -> " +:+ out) ;;;
          ret (Some h)
  end.

(** [fs::file_size] as the code calls it. *)
Definition file_size (p : string) : M Z :=
  fs <- get w_fs ;;
  ask (Fs.file_size fs p).

(** The loop over [fs::recursive_directory_iterator(input_path)], from the
    first entry on: the body, then the iterator's increment. *)
Fixpoint total_size (entries : list string) (total : Z) : M Z :=
  match entries with
  | [] => ret total
  | entry :: rest =>
      fs <- get w_fs ;;
      regular <- ask (Fs.is_regular_file fs entry) ;;
      total <- (if regular then
                  n <- file_size entry ;;
                  ret ((total + n) mod 2 ^ 64)
                else ret total) ;;
      ask (Fs.descend fs entry) ;;;
      total_size rest total
  end.

Definition gguf_validate_input (ctx : gguf_ctx_t) (info : ptr) : M Z :=
  match ctx with
  | None => set_error "Invalid context" ;;; ret GGUF_ERROR_INVALID_ARGS
  | Some h =>
      c <- ctx_get h ;;
      input_path <- read_cstr (input_path (params c)) ;;
      fs <- get w_fs ;;
      format <- ask (detect_format_impl fs input_path) ;;
      if Str.eqb format "" then
        set_error ("Could not detect model format from: " +:+ input_path) ;;;
        ret GGUF_ERROR_INVALID_FORMAT
      else
        log h 1 ("Detected format: " +:+ format) ;;;
        (if is_null info then ret tt
         else
           write_info info zero_info ;;;
           ok <- extract_model_info input_path info ;;
           when (negb ok)
             (log h 2 "Warning: Could not extract full model info from config") ;;;
           try_catch
             (dir <- ask (Fs.is_directory fs input_path) ;;
              if dir then
                entries <- ask (Fs.open_recursive fs input_path) ;;
                total <- total_size entries 0 ;;
                modify_info info (set_mi_file_size total)
              else
                n <- file_size input_path ;;
                modify_info info (set_mi_file_size n))
             (λ e, log h 2 ("Warning: Could not determine file size: "
                            +:+ what e))) ;;;
        ret GGUF_SUCCESS
  end.

(** The [for] loop over the null-terminated table, with its [strcmp]. *)
Fixpoint valid_quant (q : string) (types : list string) : bool :=
  match types with
  | [] => false
  | t :: rest => if Str.eqb q t then true else valid_quant q rest
  end.

(** The [if]/[else if] chain that picks [target_ftype]. *)
Definition target_ftype (quantization : string) : llama_ftype :=
  if Str.eqb quantization "f32" then LLAMA_FTYPE_ALL_F32
  else if Str.eqb quantization "f16" then LLAMA_FTYPE_MOSTLY_F16
  else if Str.eqb quantization "q8_0" then LLAMA_FTYPE_MOSTLY_Q8_0
  else if Str.eqb quantization "q4_0" then LLAMA_FTYPE_MOSTLY_Q4_0
  else if Str.eqb quantization "q4_1" then LLAMA_FTYPE_MOSTLY_Q4_1
  else if Str.eqb quantization "q5_0" then LLAMA_FTYPE_MOSTLY_Q5_0
  else if Str.eqb quantization "q5_1" then LLAMA_FTYPE_MOSTLY_Q5_1
  else if Str.eqb quantization "q2_k" then LLAMA_FTYPE_MOSTLY_Q2_K
  else if Str.eqb quantization "q3_k_s" then LLAMA_FTYPE_MOSTLY_Q3_K_S
  else if Str.eqb quantization "q3_k_m" then LLAMA_FTYPE_MOSTLY_Q3_K_M
  else if Str.eqb quantization "q3_k_l" then LLAMA_FTYPE_MOSTLY_Q3_K_L
  else if Str.eqb quantization "q4_k_s" then LLAMA_FTYPE_MOSTLY_Q4_K_S
  else if Str.eqb quantization "q4_k_m" then LLAMA_FTYPE_MOSTLY_Q4_K_M
  else if Str.eqb quantization "q5_k_s" then LLAMA_FTYPE_MOSTLY_Q5_K_S
  else if Str.eqb quantization "q5_k_m" then LLAMA_FTYPE_MOSTLY_Q5_K_M
  else if Str.eqb quantization "q6_k" then LLAMA_FTYPE_MOSTLY_Q6_K
  else LLAMA_FTYPE_MOSTLY_F16.

(** The command line of the external conversion script. *)
Definition conversion_command (dir input_path output_path quantization : string)
    (vocab_only : Z) (model_type : option string) (num_threads : Z) : string :=
  let cmd := "python3 " in
  let cmd := cmd +:+ dir
             +:+ "/../../vendor/llama-cpp/llama.cpp/convert_hf_to_gguf.py " in
  let cmd := cmd +:+ String dquote input_path +:+ String dquote " " in
  let cmd := cmd +:+ "--outfile " +:+ String dquote output_path
             +:+ String dquote " " in
  let cmd := cmd +:+ "--outtype " +:+ quantization +:+ " " in
  let cmd := if bool_decide (vocab_only ≠ 0) then cmd +:+ "--vocab-only "
             else cmd in
  let cmd := match model_type with
             | Some mt => cmd +:+ "--model-type " +:+ mt +:+ " "
             | None => cmd
             end in
  if bool_decide (0 < num_threads)
  then cmd +:+ "--threads " +:+ pretty num_threads +:+ " "
  else cmd.

(** The three arms of the dispatch; [Some code] is an early [return code],
    [None] falls through to the common end of [gguf_convert]. *)
Definition convert_hf (h : positive) (input_path output_path quantization : string)
  : M (option Z) :=
  set_progress h (2 # 10) (Some "Preparing conversion parameters") ;;;
  c <- ctx_get h ;;
  dir <- get (λ w, source_dir (w_backend w)) ;;
  mt <- (if is_null (model_type (params c)) then ret None
         else s <- read_cstr (model_type (params c)) ;; ret (Some s)) ;;
  let cmd := conversion_command dir input_path output_path quantization
               (vocab_only (params c)) mt (num_threads (params c)) in
  set_progress h (3 # 10) (Some "Executing conversion script") ;;;
  log h 1 ("Running: " +:+ cmd) ;;;
  result <- system cmd ;;
  if bool_decide (result ≠ 0) then
    set_error ("Python conversion script failed with code: " +:+ pretty result) ;;;
    llama_backend_free ;;;
    ret (Some GGUF_ERROR_CONVERSION_FAILED)
  else ret None.

Definition convert_gguf (h : positive) (input_path output_path quantization : string)
  : M (option Z) :=
  set_progress h (2 # 10) (Some "Preparing quantization parameters") ;;;
  let ftype := target_ftype quantization in
  c <- ctx_get h ;;
  set_progress h (3 # 10) (Some "Starting quantization process") ;;;
  r <- llama_model_quantize input_path output_path ftype
         (num_threads (params c)) ;;
  let result := r mod 2 ^ 32 in
  if bool_decide (result ≠ 0) then
    set_error ("llama.cpp quantization failed with code: " +:+ pretty result) ;;;
    llama_backend_free ;;;
    ret (Some GGUF_ERROR_CONVERSION_FAILED)
  else ret None.

Definition convert_unsupported (input_ext : string) : M (option Z) :=
  set_error ("Unsupported input format: " +:+ input_ext) ;;;
  llama_backend_free ;;;
  ret (Some GGUF_ERROR_INVALID_FORMAT).

Definition gguf_convert (ctx : gguf_ctx_t) : M Z :=
  match ctx with
  | None => set_error "Invalid context" ;;; ret GGUF_ERROR_INVALID_ARGS
  | Some h =>
      try_catch
        (set_progress h 0 (Some "Initializing conversion") ;;;
         log h 1 "Starting conversion..." ;;;
         c <- ctx_get h ;;
         if cancelled c then
           set_error "Conversion cancelled" ;;;
           ret GGUF_ERROR_CANCELLED
         else
           q <- read_cstr (quantization (params c)) ;;
           if negb (valid_quant q QUANTIZATION_TYPES) then
             set_error ("Invalid quantization type: " +:+ q) ;;;
             ret GGUF_ERROR_INVALID_QUANTIZATION
           else
             set_progress h (1 # 10) (Some "Loading model") ;;;
             llama_backend_init ;;;
             input_path <- read_cstr (input_path (params c)) ;;
             output_path <- read_cstr (output_path (params c)) ;;
             quantization <- read_cstr (quantization (params c)) ;;
             let input_ext := Path.extension input_path in
             fs <- get w_fs ;;
             dir <- ask (Fs.is_directory fs input_path) ;;
             early <-
               (if dir || Str.eqb input_ext ".bin"
                   || Str.eqb input_ext ".safetensors"
                then convert_hf h input_path output_path quantization
                else if Str.eqb input_ext ".gguf"
                then convert_gguf h input_path output_path quantization
                else convert_unsupported input_ext) ;;
             match early with
             | Some code => ret code
             | None =>
                 set_progress h 1 (Some "Complete") ;;;
                 log h 1 "Conversion completed successfully" ;;;
                 llama_backend_free ;;;
                 ret GGUF_SUCCESS
             end)
        (λ e,
           set_error ("Conversion error: " +:+ what e) ;;;
           err <- get g_last_error ;;
           log h 3 err ;;;
           llama_backend_free ;;;
           ret GGUF_ERROR_CONVERSION_FAILED)
  end.

Definition gguf_cancel (ctx : gguf_ctx_t) : M unit :=
  match ctx with
  | Some h =>
      ctx_modify h (λ c,
        {| params := params c; progress := progress c; cancelled := true;
           current_stage := current_stage c |}) ;;;
      log h 2 "Cancellation requested"
  | None => ret tt
  end.

Definition gguf_is_cancelled (ctx : gguf_ctx_t) : M Z :=
  match ctx with
  | Some h => c <- ctx_get h ;; ret (if cancelled c then 1 else 0)
  | None => ret 0
  end.

Definition gguf_get_progress (ctx : gguf_ctx_t) : M Q :=
  match ctx with
  | Some h => c <- ctx_get h ;; ret (progress c)
  | None => ret (-1)%Q
  end.

Definition free_field (p : ptr) : M unit :=
  if is_null p then ret tt else free p.

Definition gguf_free_context (ctx : gguf_ctx_t) : M unit :=
  match ctx with
  | None => ret tt
  | Some h =>
      c <- ctx_get h ;;
      free_field (input_path (params c)) ;;;
      free_field (output_path (params c)) ;;;
      free_field (model_type (params c)) ;;;
      free_field (quantization (params c)) ;;;
      free_field (vocab_type (params c)) ;;;
      modify (λ w, with_ctxs (delete h (w_ctxs w)) w)
  end.

(** The result is the content of the thread-local [format_str] the returned
    pointer designates, [None] for a null result. *)
Definition gguf_detect_format (path : ptr) : M (option string) :=
  if is_null path then ret None
  else
    p <- read_cstr path ;;
    fs <- get w_fs ;;
    format <- ask (detect_format_impl fs p) ;;
    modify (with_format_str format) ;;;
    s <- get format_str ;;
    ret (if Str.eqb s "" then None else Some s).

(** ** File verification *)

(** [strncmp(buf, lit, n) != 0] on a buffer of which only the bytes of [buf]
    were written: [None] when the comparison comes to a byte that never
    was. *)
Fixpoint strncmp_differs (n : nat) (buf lit : string) : option bool :=
  match n with
  | O => Some false
  | S n' =>
      match buf with
      | EmptyString => None
      | String a buf' =>
          let '(b, lit') :=
            match lit with
            | String b lit' => (b, lit')
            | EmptyString => (Ascii.zero, EmptyString)
            end in
          if bool_decide (a = b) then
            if bool_decide (a = Ascii.zero) then Some false
            else strncmp_differs n' buf' lit'
          else Some true
      end
  end.

Definition gguf_verify_file (path : ptr) (info : ptr) : M Z :=
  if is_null path then
    set_error "Invalid path" ;;;
    ret GGUF_ERROR_INVALID_ARGS
  else
    file_path <- read_cstr path ;;
    fs <- get w_fs ;;
    found <- ask (Fs.exists_ fs file_path) ;;
    if negb found then
      set_error "File not found" ;;;
      ret GGUF_ERROR_FILE_NOT_FOUND
    else
      match Fs.open_read fs file_path with
      | None =>
          set_error "Could not open file" ;;;
          ret GGUF_ERROR_IO_ERROR
      | Some content =>
          let magic := Str.take 4 content in
          match strncmp_differs 4 magic "GGUF" with
          | None => undefined
          | Some true =>
              set_error "Invalid GGUF magic number" ;;;
              ret GGUF_ERROR_INVALID_FORMAT
          | Some false =>
              (if is_null info then ret tt
               else
                 write_info info zero_info ;;;
                 n <- file_size file_path ;;
                 modify_info info (set_mi_file_size n) ;;;
                 modify_info info (set_mi_model_type (strncpy "gguf" 63))) ;;;
              ret GGUF_SUCCESS
          end
      end.

(** * Properties *)

(** ** Vocabulary of the statements *)

(** The events a run appended to the trace of the world it started from. *)
Definition new_events (w w' : world) : list event :=
  drop (length (w_trace w)) (w_trace w').

(** The calls that entered the backend: its runtime, the external script,
    the quantizer. *)
Definition backend_calls (w w' : world) : list event :=
  List.filter is_backend_event (new_events w w').

(** The checkpoints handed to the progress callback, in order. *)
Definition progress_calls (w w' : world) : list (Q * option string) :=
  omap (λ e, match e with
             | ProgressCb _ p stage _ => Some (p, stage)
             | _ => None
             end) (new_events w w').

Definition is_log (e : event) : bool :=
  match e with LogCb _ _ _ _ => true | _ => false end.

(** A pointer the C code may read a string through, or test for null. *)
Definition readable (hp : gmap positive cell) (p : ptr) : Prop :=
  p = NULL ∨ is_Some (cstr_at hp p).

(** Every string pointer of a parameter struct is null or designates a
    C string. *)
Definition params_readable (hp : gmap positive cell)
    (p : gguf_conversion_params_t) : Prop :=
  readable hp (input_path p) ∧ readable hp (output_path p) ∧
  readable hp (model_type p) ∧ readable hp (quantization p) ∧
  readable hp (vocab_type p).

(** [dst] is a copy of [src] in storage that did not exist in [hp0]. *)
Definition owned_copy (hp0 hp : gmap positive cell) (src dst : ptr) : Prop :=
  cstr_at hp dst = cstr_at hp0 src ∧
  match src with
  | NULL => dst = NULL
  | _ => ∃ a, dst = Heap a ∧ hp0 !! a = None
  end.

(** What a successful [gguf_create_context] leaves behind. *)
Record created (w : world) (p : gguf_conversion_params_t) (inp out : string)
    (h : positive) (c : gguf_conversion_ctx) (w1 : world) : Prop := {
  cr_fresh : w_ctxs w !! h = None;
  cr_ctxs : w_ctxs w1 = <[h := c]> (w_ctxs w);
  cr_heap : w_heap w ⊆ w_heap w1;
  cr_input : owned_copy (w_heap w) (w_heap w1)
               (input_path p) (input_path (params c));
  cr_output : owned_copy (w_heap w) (w_heap w1)
                (output_path p) (output_path (params c));
  cr_model : owned_copy (w_heap w) (w_heap w1)
               (model_type p) (model_type (params c));
  cr_quant : owned_copy (w_heap w) (w_heap w1)
               (quantization p) (quantization (params c));
  cr_vocab : owned_copy (w_heap w) (w_heap w1)
               (vocab_type p) (vocab_type (params c));
  cr_meta : metadata_overrides (params c) = metadata_overrides p;
  cr_scalars :
    vocab_only (params c) = vocab_only p ∧ use_mmap (params c) = use_mmap p ∧
    num_threads (params c) = num_threads p ∧
    pad_vocab (params c) = pad_vocab p ∧
    progress_cb (params c) = progress_cb p ∧ log_cb (params c) = log_cb p ∧
    user_data (params c) = user_data p;
  cr_progress : progress c = 0%Q;
  cr_cancelled : cancelled c = false;
  cr_fs : w_fs w1 = w_fs w;
  cr_trace :
    w_trace w1 = w_trace w ++
      match log_cb p with
      | Some cb =>
          [LogCb cb 1 ("Created conversion context: " +:+ inp
                       +:+ " -> " +:+ out) (user_data p)]
      | None => []
      end }.


(** What [gguf_validate_input] may change: nothing of the contexts, the
    file system, the detector's buffer or the backend; of the store, only a
    [gguf_model_info_t] cell, and only the one [info] designates; of the
    trace, only appended calls of the log callback. The last-error string
    is free. *)
Record validate_frame (info : ptr) (w w' : world) : Prop := {
  vf_ctxs : w_ctxs w' = w_ctxs w;
  vf_fs : w_fs w' = w_fs w;
  vf_format : format_str w' = format_str w;
  vf_backend : w_backend w' = w_backend w;
  vf_heap : ∀ a,
    w_heap w' !! a = w_heap w !! a ∨
    (info = Heap a ∧ ∃ i i', w_heap w !! a = Some (CInfo i) ∧
                             w_heap w' !! a = Some (CInfo i'));
  vf_trace : ∃ evs, w_trace w' = w_trace w ++ evs ∧
                    Forall (λ e, is_log e = true) evs }.

Definition frames {A} (info : ptr) (m : M A) : Prop :=
  ∀ w, validate_frame info w (m w).2.

(** Two stores that show validation the same: the same string behind the
    context's input path, the same cell behind [info]. *)
Definition agree (info ip : ptr) (hp hp2 : gmap positive cell) : Prop :=
  cstr_at hp2 ip = cstr_at hp ip ∧
  ∀ a, info = Heap a → hp2 !! a = hp !! a.

(** Two runs that differ in the store only, and agree on it as above, end
    alike. *)
Definition alike {A} (info ip : ptr) (r : outcome A * world)
    (r2 : outcome A * world) : Prop :=
  r2.1 = r.1 ∧ r2.2 = with_heap (w_heap r2.2) r.2 ∧
  agree info ip (w_heap r.2) (w_heap r2.2).

Definition same_run {A} (info ip : ptr) (m : M A) : Prop :=
  ∀ w hp2, agree info ip (w_heap w) hp2 →
           alike info ip (m w) (m (with_heap hp2 w)).

(** The outcome of creation. *)

Definition INVALID_PARAMETERS : string :=
  "Invalid parameters: input_path and output_path are required".

(** What [gguf_create_context] does with the parameters it is given: it
    refuses them, returning null with the error set; or it makes a context;
    or, where the status of the input path cannot be determined, the
    [filesystem_error] of [fs::exists] leaves it, nothing having been
    done. *)
Definition create_post (w : world)
    (arg : option gguf_conversion_params_t) : Prop :=
  let '(r, w1) := gguf_create_context arg w in
  let refused (msg : string) :=
    r = Returns None ∧ g_last_error w1 = msg ∧
    w_ctxs w1 = w_ctxs w ∧ w_heap w1 = w_heap w in
  match arg with
  | None => refused INVALID_PARAMETERS
  | Some p =>
      match cstr_at (w_heap w) (input_path p),
            cstr_at (w_heap w) (output_path p) with
      | Some inp, Some out =>
          match Fs.exists_ (w_fs w) inp with
          | Yields true =>
            ∃ h c,
              r = Returns (Some h) ∧ created w p inp out h c w1 ∧
              ∀ hp2,
                (∀ a, w_heap w !! a = None → hp2 !! a = w_heap w1 !! a) →
                cstr_at hp2 (input_path (params c)) = Some inp ∧
                cstr_at hp2 (output_path (params c)) = Some out ∧
                cstr_at hp2 (model_type (params c))
                  = cstr_at (w_heap w) (model_type p) ∧
                cstr_at hp2 (quantization (params c))
                  = cstr_at (w_heap w) (quantization p) ∧
                cstr_at hp2 (vocab_type (params c))
                  = cstr_at (w_heap w) (vocab_type p) ∧
                gguf_convert (Some h) (with_heap hp2 w1)
                  = (let '(r, w') := gguf_convert (Some h) w1 in
                     (r, with_heap hp2 w')) ∧
                ∀ info,
                  (∀ a, info = Heap a → hp2 !! a = w_heap w1 !! a) →
                  alike info (input_path (params c))
                    (gguf_validate_input (Some h) info w1)
                    (gguf_validate_input (Some h) info (with_heap hp2 w1))
          | Yields false => refused ("Input path not found: " +:+ inp)
          | Fails e => r = Throws e ∧ w1 = w
          end
      | _, _ => refused INVALID_PARAMETERS
      end
  end.

(** ** Sample worlds *)

(** A backend whose script and quantizer succeed and leave the file system
    alone. *)
Definition quiet_backend : backend :=
  {| source_dir := "/opt/gguf-bridge";
     run_system := λ _ fs, (0, fs);
     run_quantize := λ _ _ _ _ fs, (Exit 0, fs) |}.

Definition sample_fs : filesystem :=
  {[ "m.gguf" := Regular true "GGUF";
     "x.pt" := Regular true "weights";
     "hf" := Directory true;
     "hf/model.safetensors" := Regular true "tensors";
     "llama" := Directory true;
     "llama/pytorch_model.bin" := Regular true "0123456789";
     "llama/config.json" :=
       Regular true (unlines
         [ "{";
           "  " +:+ quoted "model_type" +:+ ": " +:+ quoted "llama" +:+ ",";
           "  " +:+ quoted "hidden_size" +:+ ": 4096,";
           "  " +:+ quoted "num_hidden_layers" +:+ ": 32,";
           "  " +:+ quoted "vocab_size" +:+ ": 32000,";
           "  " +:+ quoted "max_position_embeddings" +:+ ": 4096";
           "}" ]);
     "bad/model.gguf" := Regular true "GGUF";
     "bad/config.json" := Regular true (unlines [ "hidden_size: null" ]) ]}
  ∪ {[ "sealed/model.bin" := Denied "Permission denied";
       "vault" := Directory false;
       "vault/model.safetensors" := Regular true "tensors";
       "deep" := Directory true;
       "deep/model.safetensors" := Regular true "tensors";
       "deep/sub" := Directory false ]}.

(** A caller's parameters, its strings in static storage. *)
Definition sample_params (inp out q : string) : gguf_conversion_params_t :=
  {| input_path := Static inp; output_path := Static out;
     model_type := NULL; quantization := Static q;
     vocab_only := 0; use_mmap := 1; num_threads := 4;
     vocab_type := NULL; pad_vocab := 0; metadata_overrides := NULL;
     progress_cb := Some 1%positive; log_cb := Some 2%positive;
     user_data := 7 |}.

Definition empty_world : world :=
  {| w_fs := sample_fs; w_heap := ∅; w_ctxs := ∅;
     g_last_error := EmptyString; format_str := EmptyString;
     w_trace := []; w_backend := quiet_backend |}.

(** The context a successful creation yields, its strings in cells 1-3 of
    the store, and the world that holds it under handle 1. *)
Definition job (c : bool) : gguf_conversion_ctx :=
  {| params :=
       {| input_path := Heap 1; output_path := Heap 2; model_type := NULL;
          quantization := Heap 3; vocab_only := 0; use_mmap := 1;
          num_threads := 4; vocab_type := NULL; pad_vocab := 0;
          metadata_overrides := NULL; progress_cb := Some 1%positive;
          log_cb := Some 2%positive; user_data := 7 |};
     progress := 0; cancelled := c; current_stage := EmptyString |}.

Definition job_world (inp q : string) : world :=
  {| w_fs := sample_fs;
     w_heap := {[ 1%positive := CStr inp; 2%positive := CStr "out.gguf";
                  3%positive := CStr q; 9%positive := CInfo zero_info ]};
     w_ctxs := {[ 1%positive := job false ]};
     g_last_error := EmptyString; format_str := EmptyString;
     w_trace := []; w_backend := quiet_backend |}.

(** A caller whose strings sit in cells 20-22 of the store. *)
Definition caller_params (q : string) : gguf_conversion_params_t :=
  {| input_path := Heap 20; output_path := Heap 21;
     model_type := NULL; quantization := Heap 22;
     vocab_only := 0; use_mmap := 1; num_threads := 4;
     vocab_type := NULL; pad_vocab := 0; metadata_overrides := NULL;
     progress_cb := Some 1%positive; log_cb := Some 2%positive;
     user_data := 7 |}.

Definition caller_world (inp q : string) : world :=
  with_heap {[ 20%positive := CStr inp; 21%positive := CStr "out.gguf";
               22%positive := CStr q; 9%positive := CInfo zero_info ]}
    empty_world.

(** A backend whose quantizer throws an object that is no
    [std::exception]. *)
Definition faulty_backend : backend :=
  {| source_dir := "/opt/gguf-bridge";
     run_system := λ _ fs, (0, fs);
     run_quantize := λ _ _ _ _ fs, (Raise (foreign "int"), fs) |}.

Definition with_backend (b : backend) (w : world) : world :=
  {| w_fs := w_fs w; w_heap := w_heap w; w_ctxs := w_ctxs w;
     g_last_error := g_last_error w; format_str := format_str w;
     w_trace := w_trace w; w_backend := b |}.

(** A caller whose output path is the empty string and whose metadata
    overrides sit in cell 5 of the store. *)
Definition sharing_params : gguf_conversion_params_t :=
  {| input_path := Static "m.gguf"; output_path := Static EmptyString;
     model_type := NULL; quantization := Static "f16";
     vocab_only := 0; use_mmap := 1; num_threads := 0;
     vocab_type := NULL; pad_vocab := 0; metadata_overrides := Heap 5;
     progress_cb := None; log_cb := None; user_data := 0 |}.

Definition sharing_world : world :=
  with_heap {[ 5%positive := CArr [Static "general.name=demo"] ]} empty_world.

Example job_world_is_created :
  gguf_create_context (Some (sample_params "m.gguf" "out.gguf" "f16"))
    (with_heap {[ 9%positive := CInfo zero_info ]} empty_world)
  = (Returns (Some 1%positive),
     with_heap {[ 10%positive := CStr "m.gguf"; 11%positive := CStr "out.gguf";
                  12%positive := CStr "f16"; 9%positive := CInfo zero_info ]}
       (with_trace [LogCb 2 1 "Created conversion context: m.gguf -> out.gguf" 7]
          (with_ctxs {[ 1%positive :=
             {| params :=
                  {| input_path := Heap 10; output_path := Heap 11;
                     model_type := NULL; quantization := Heap 12;
                     vocab_only := 0; use_mmap := 1; num_threads := 4;
                     vocab_type := NULL; pad_vocab := 0;
                     metadata_overrides := NULL;
                     progress_cb := Some 1%positive;
                     log_cb := Some 2%positive; user_data := 7 |};
                progress := 0; cancelled := false;
                current_stage := EmptyString |} ]} empty_world))).
Proof. vm_compute. reflexivity. Qed.

(** ** Vocabulary of the further properties *)

(** A Hoare triple on the monad: from a world in [P], a run that returns
    [a] ends in [Q a], a run that throws ends in [E]; of a run whose
    behaviour is undefined nothing is said. *)
Definition triple {A} (P : world → Prop) (m : M A)
    (Q : A → world → Prop) (E : world → Prop) : Prop :=
  ∀ w, P w →
       match m w with
       | (Returns a, w') => Q a w'
       | (Throws _, w') => E w'
       | (Undefined, _) => True
       end.

(** [m] keeps the invariant [P], however it ends. *)
Definition keeps {A} (P : world → Prop) (m : M A) : Prop :=
  triple P m (λ _, P) P.

(** Every exception that leaves [m] satisfies [ok]. *)
Definition throws_only {A} (ok : exn → Prop) (m : M A) : Prop :=
  ∀ w e w', m w = (Throws e, w') → ok e.

(** The two exceptions of [std::stoul]. *)
Definition from_stoul (e : exn) : Prop :=
  e = invalid_argument "stoul" ∨ e = out_of_range "stoul".

(** The calls a client can make, and a client as a list of them. *)
Inductive call :=
| CallCreate (params : option gguf_conversion_params_t)
| CallValidate (ctx : gguf_ctx_t) (info : ptr)
| CallConvert (ctx : gguf_ctx_t)
| CallCancel (ctx : gguf_ctx_t)
| CallIsCancelled (ctx : gguf_ctx_t)
| CallGetProgress (ctx : gguf_ctx_t)
| CallFree (ctx : gguf_ctx_t)
| CallDetectFormat (path : ptr)
| CallVerifyFile (path : ptr) (info : ptr)
| CallGetLastError
| CallClearError.

(** The world a call leaves, [None] when its behaviour is undefined (an
    exception that leaves the call is the caller's to catch). *)
Definition settle {A} (r : outcome A * world) : option world :=
  match r.1 with
  | Undefined => None
  | _ => Some r.2
  end.

Definition run_call (c : call) (w : world) : option world :=
  match c with
  | CallCreate params => settle (gguf_create_context params w)
  | CallValidate ctx info => settle (gguf_validate_input ctx info w)
  | CallConvert ctx => settle (gguf_convert ctx w)
  | CallCancel ctx => settle (gguf_cancel ctx w)
  | CallIsCancelled ctx => settle (gguf_is_cancelled ctx w)
  | CallGetProgress ctx => settle (gguf_get_progress ctx w)
  | CallFree ctx => settle (gguf_free_context ctx w)
  | CallDetectFormat path => settle (gguf_detect_format path w)
  | CallVerifyFile path info => settle (gguf_verify_file path info w)
  | CallGetLastError => settle (gguf_get_last_error w)
  | CallClearError => settle (gguf_clear_error w)
  end.

Fixpoint run_calls (cs : list call) (w : world) : option world :=
  match cs with
  | [] => Some w
  | c :: rest =>
      match run_call c w with
      | Some w' => run_calls rest w'
      | None => None
      end
  end.

(** Context [h] is live and satisfies [φ]. *)
Definition holds_at (h : positive) (φ : gguf_conversion_ctx → Prop)
    (w : world) : Prop :=
  ∃ c, w_ctxs w !! h = Some c ∧ φ c.

(** Context [h] is live and its cancellation flag is set. *)
Definition cancelled_at (h : positive) (w : world) : Prop :=
  ∃ c, w_ctxs w !! h = Some c ∧ cancelled c = true.

(** How a [gguf_convert] that returned [code] left its context, the
    last-error string ([err] before, [err'] after) and the backend, [fs]
    being the file system and [input] the input path of the context. *)
Inductive convert_row (err : string) (fs : filesystem)
    (input : option string)
  : Z → Q → string → string → list event → Prop :=
| row_cancelled :
    convert_row err fs input GGUF_ERROR_CANCELLED 0 "Initializing conversion"
      "Conversion cancelled" []
| row_invalid_quantization q :
    convert_row err fs input GGUF_ERROR_INVALID_QUANTIZATION 0
      "Initializing conversion" ("Invalid quantization type: " +:+ q) []
| row_invalid_format ext :
    convert_row err fs input GGUF_ERROR_INVALID_FORMAT (1 # 10) "Loading model"
      ("Unsupported input format: " +:+ ext)
      [LlamaBackendInit; LlamaBackendFree]
| row_status_threw path e :
    input = Some path → Fs.is_directory fs path = Fails e →
    convert_row err fs input GGUF_ERROR_CONVERSION_FAILED (1 # 10)
      "Loading model" ("Conversion error: " +:+ what e)
      [LlamaBackendInit; LlamaBackendFree]
| row_script_failed cmd code :
    code ≠ 0 →
    convert_row err fs input GGUF_ERROR_CONVERSION_FAILED (3 # 10)
      "Executing conversion script"
      ("Python conversion script failed with code: " +:+ pretty code)
      [LlamaBackendInit; System cmd; LlamaBackendFree]
| row_quantize_failed inp out ftype nthread code :
    code ≠ 0 →
    convert_row err fs input GGUF_ERROR_CONVERSION_FAILED (3 # 10)
      "Starting quantization process"
      ("llama.cpp quantization failed with code: " +:+ pretty code)
      [ LlamaBackendInit; LlamaModelQuantize inp out ftype nthread;
        LlamaBackendFree ]
| row_quantize_threw inp out ftype nthread e :
    convert_row err fs input GGUF_ERROR_CONVERSION_FAILED (3 # 10)
      "Starting quantization process"
      ("Conversion error: " +:+ what e)
      [ LlamaBackendInit; LlamaModelQuantize inp out ftype nthread;
        LlamaBackendFree ]
| row_script_done cmd :
    convert_row err fs input GGUF_SUCCESS 1 "Complete" err
      [LlamaBackendInit; System cmd; LlamaBackendFree]
| row_quantize_done inp out ftype nthread :
    convert_row err fs input GGUF_SUCCESS 1 "Complete" err
      [ LlamaBackendInit; LlamaModelQuantize inp out ftype nthread;
        LlamaBackendFree ].


(** The tags [gguf_detect_format] can return. *)
Definition FORMAT_TAGS : list string :=
  [ "gguf"; "pytorch"; "safetensors"; "tensorflow"; "flax" ].

(** The size [gguf_validate_input] has to report: of a directory, the
    sizes of the regular files below it, added up in a [uint64_t], provided
    the directory can be walked, that is, it and every directory below it
    can be opened and the status of every entry determined; of anything
    else, its own size; and nothing where the walk or [fs::file_size]
    fails. *)
Definition entry_size (fs : filesystem) (q : string) : Z :=
  match Fs.file_size fs q with
  | Yields n => n
  | Fails _ => 0
  end.

Definition visitable (fs : filesystem) (q : string) : bool :=
  match fs !! q with
  | Some (Denied _) | Some (Directory false) => false
  | _ => true
  end.

Definition walkable (fs : filesystem) (inp : string) : bool :=
  match Fs.open_recursive fs inp with
  | Yields entries => forallb (visitable fs) entries
  | Fails _ => false
  end.

Definition input_size (fs : filesystem) (inp : string) : Z :=
  match Fs.is_directory fs inp with
  | Yields true =>
      if walkable fs inp then
        foldr (λ q acc, entry_size fs q + acc) 0
          (Fs.recursive_entries fs inp) `mod` 2 ^ 64
      else 0
  | Yields false => entry_size fs inp
  | Fails _ => 0
  end.


(** A context with another progress value and stage label. *)
Definition with_progress (p : Q) (stage : string) (c : gguf_conversion_ctx)
  : gguf_conversion_ctx :=
  {| params := params c; progress := p; cancelled := cancelled c;
     current_stage := stage |}.

(** The cell a pointer owns in the store, if it owns one. *)
Definition ptr_cells (p : ptr) : gset positive :=
  match p with Heap a => {[ a ]} | _ => ∅ end.

(** A client that cancels context 1 and goes on using the API. *)
Definition busy_client : list call :=
  [ CallConvert (Some 1%positive);
    CallValidate (Some 1%positive) (Heap 9);
    CallCreate (Some (sample_params "hf" "out.gguf" "f16"));
    CallConvert (Some 2%positive);
    CallGetProgress (Some 1%positive);
    CallFree (Some 2%positive);
    CallClearError ].

(** ** Running the monad in proofs *)

Local Arguments valid_quant : simpl never.
Local Arguments target_ftype : simpl never.
Local Arguments conversion_command : simpl never.
Local Arguments cstr_at : simpl never.
Local Arguments dup_field : simpl never.
Local Arguments Path.extension : simpl never.
Local Arguments Fs.is_directory : simpl never.
Local Arguments Fs.exists_ : simpl never.
Local Arguments Str.eqb : simpl never.
Local Arguments String.append : simpl never.
Local Arguments pretty : simpl never.
Local Arguments Z.modulo : simpl never.
Local Arguments Z.pow : simpl never.
Local Arguments orb : simpl never.
Local Arguments detect_format_impl : simpl never.

Ltac open_ctx c :=
  let p := fresh "p" in
  destruct c as [p ? ? ?];
  destruct p as [ipp opp mtp qtp ? ? ? vtp ? mop [?|] [?|] ?].

Ltac unfold_api :=
  unfold gguf_cancel, gguf_convert, gguf_is_cancelled, gguf_get_progress,
    convert_hf, convert_gguf, convert_unsupported,
    system, llama_model_quantize, llama_backend_init, llama_backend_free,
    try_catch, ctx_modify, set_progress, log, ctx_get, read_cstr, set_error,
    ask, get, modify, emit, ret, bind in *.

(** What the queries of the file system throw is a [filesystem_error]. *)
Lemma is_directory_fails fs p e :
  Fs.is_directory fs p = Fails e → is_std_exception e = true.
Proof.
  unfold Fs.is_directory. destruct (fs !! p) as [[]|]; intros [=]; by subst.
Qed.

Lemma exists_fails fs p e :
  Fs.exists_ fs p = Fails e → is_std_exception e = true.
Proof.
  unfold Fs.exists_. destruct (fs !! p) as [[]|]; intros [=]; by subst.
Qed.

Lemma is_regular_file_fails fs p e :
  Fs.is_regular_file fs p = Fails e → is_std_exception e = true.
Proof.
  unfold Fs.is_regular_file. destruct (fs !! p) as [[]|]; intros [=]; by subst.
Qed.

Lemma file_size_fails fs p e :
  Fs.file_size fs p = Fails e → is_std_exception e = true.
Proof.
  unfold Fs.file_size. destruct (fs !! p) as [[]|]; intros [=]; by subst.
Qed.

Lemma open_recursive_fails fs p e :
  Fs.open_recursive fs p = Fails e → is_std_exception e = true.
Proof.
  unfold Fs.open_recursive.
  destruct (fs !! p) as [[[]| | |]|]; intros [=]; by subst.
Qed.

Lemma descend_fails fs p e :
  Fs.descend fs p = Fails e → is_std_exception e = true.
Proof.
  unfold Fs.descend.
  destruct (fs !! p) as [[[]| | |]|]; intros [=]; by subst.
Qed.


Ltac run :=
  repeat (cbn in *; rewrite ?lookup_insert_eq in *;
          repeat match goal with
                 | H : Fs.is_directory _ _ = Fails ?e |- _ =>
                     rewrite (is_directory_fails _ _ _ H) in *
                 end).

(** One case split on what the code branches on next. *)
Ltac split_match H :=
  match type of H with
  | context [if ?b then _ else _] => is_var b; destruct b
  | context [is_null ?p] => is_var p; destruct p
  | context [match cstr_at ?h ?p with _ => _ end] =>
      destruct (cstr_at h p) eqn:?
  | context [negb (valid_quant ?q ?l)] => destruct (valid_quant q l) eqn:?
  | context [if ?a || ?b then _ else _] => destruct (a || b) eqn:?
  | context [if Str.eqb ?a ?b then _ else _] => destruct (Str.eqb a b) eqn:?
  | context [run_system ?b ?c ?f] =>
      destruct (run_system b c f) as [? ?] eqn:?
  | context [run_quantize ?b ?i ?o ?t ?n ?f] =>
      destruct (run_quantize b i o t n f) as [[?|?] ?] eqn:?
  | context [bool_decide ?P] => destruct (bool_decide P) eqn:?
  | context [match Fs.is_directory ?f ?p with _ => _ end] =>
      destruct (Fs.is_directory f p) as [?|?] eqn:?
  | context [is_std_exception ?e] => destruct (is_std_exception e) eqn:?
  end.

Ltac crunch H := repeat (run; try discriminate H; try split_match H).

Ltac trace_ok :=
  cbn; rewrite <- ?app_assoc;
  first [ reflexivity | symmetry; apply app_nil_r ].


(** Closed conjunctions settled by evaluation. *)
Ltac by_evaluation :=
  cbv zeta;
  repeat match goal with |- _ ∧ _ => split end;
  vm_compute; first [ reflexivity | discriminate ].

(** ** Traces and the quantization table *)

Lemma new_events_app w w' evs :
  w_trace w' = w_trace w ++ evs → new_events w w' = evs.
Proof. intros E. unfold new_events. rewrite E. apply drop_app_length. Qed.

Lemma valid_quant_elem_of q types :
  valid_quant q types = true ↔ q ∈ types.
Proof.
  induction types as [|t rest IH]; simpl.
  - split; [discriminate | intros H; inversion H].
  - unfold valid_quant; fold valid_quant. unfold Str.eqb.
    case_bool_decide as E.
    + subst. split; [intros _; left | reflexivity].
    + rewrite IH. split; [intros H; by right |].
      intros H. inversion H; subst; [congruence | assumption].
Qed.

Lemma valid_quant_not_elem_of q types :
  q ∉ types → valid_quant q types = false.
Proof.
  intros H. destruct (valid_quant q types) eqn:E; [|done].
  by apply valid_quant_elem_of in E.
Qed.

(** ** Strings in the store *)

Lemma cstr_at_mono hp hp' p s :
  hp ⊆ hp' → cstr_at hp p = Some s → cstr_at hp' p = Some s.
Proof.
  intros Hsub. destruct p as [| |a]; unfold cstr_at; try done.
  destruct (hp !! a) as [[]|] eqn:E; try done.
  intros [= <-]. by rewrite (lookup_weaken _ _ _ _ E Hsub).
Qed.

Lemma readable_mono hp hp' p : hp ⊆ hp' → readable hp p → readable hp' p.
Proof.
  intros Hsub [->|[s Hs]]; [by left | right].
  exists s. by eapply cstr_at_mono.
Qed.

Lemma owned_copy_mono hp0 hp hp' src dst :
  readable hp0 src → hp ⊆ hp' →
  owned_copy hp0 hp src dst → owned_copy hp0 hp' src dst.
Proof.
  intros Hr Hsub [Hc Hd]. split; [|exact Hd].
  destruct Hr as [->|[s Hs]].
  - by subst dst.
  - rewrite Hs in *. by eapply cstr_at_mono.
Qed.

Lemma owned_copy_back hp0 hp hp5 src dst :
  readable hp0 src → hp0 ⊆ hp → hp ⊆ hp5 →
  owned_copy hp hp5 src dst → owned_copy hp0 hp5 src dst.
Proof.
  intros Hr Hs Hs5 [Hc Hd]. split.
  - rewrite Hc. destruct Hr as [->|[s Hs']]; [done|].
    rewrite Hs'. by eapply cstr_at_mono.
  - destruct src; [done| |];
      destruct Hd as (b & -> & Hn); exists b; (split; [done|]);
      by eapply lookup_weaken_None.
Qed.

(** Whatever happens to the cells that existed before the copy was taken,
    the copy reads the same. *)
Lemma owned_copy_stable hp0 hp hp2 src dst :
  owned_copy hp0 hp src dst →
  (∀ a, hp0 !! a = None → hp2 !! a = hp !! a) →
  cstr_at hp2 dst = cstr_at hp0 src.
Proof.
  intros [Hc Hd] Hag. rewrite <- Hc.
  destruct src; [by subst dst| |];
    destruct Hd as (b & -> & Hn); unfold cstr_at; by rewrite (Hag b Hn).
Qed.

Lemma strdup_spec p s w :
  cstr_at (w_heap w) p = Some s →
  let a := fresh (dom (w_heap w)) in
  strdup p w = (Returns (Heap a), with_heap (<[a := CStr s]> (w_heap w)) w) ∧
  w_heap w !! a = None.
Proof.
  intros Hs. split.
  - unfold strdup, bind, read_cstr. by rewrite Hs.
  - apply not_elem_of_dom, is_fresh.
Qed.

Lemma dup_field_spec p w :
  readable (w_heap w) p →
  ∃ p' hp',
    dup_field p w = (Returns p', with_heap hp' w) ∧
    w_heap w ⊆ hp' ∧
    owned_copy (w_heap w) hp' p p'.
Proof.
  intros [->|[s Hs]].
  - exists NULL, (w_heap w). split; [by destruct w|]. split; [done|]. by split.
  - destruct (strdup_spec p s w Hs) as [E Hf].
    eexists _, _. split; [|split].
    + unfold dup_field. destruct p; [discriminate Hs| |]; exact E.
    + by apply insert_subseteq.
    + split.
      * rewrite Hs. unfold cstr_at. by rewrite lookup_insert_eq.
      * destruct p; [discriminate Hs| |]; eauto.
Qed.

(** ** Creation *)

Lemma create_context_ok w p inp out :
  params_readable (w_heap w) p →
  cstr_at (w_heap w) (input_path p) = Some inp →
  cstr_at (w_heap w) (output_path p) = Some out →
  Fs.exists_ (w_fs w) inp = Yields true →
  ∃ h c w1,
    gguf_create_context (Some p) w = (Returns (Some h), w1) ∧
    created w p inp out h c w1.
Proof.
  intros (Ri & Ro & Rm & Rq & Rv) Hi Ho Hex.
  unfold gguf_create_context.
  assert (is_null (input_path p) || is_null (output_path p) = false) as ->.
  { destruct (input_path p), (output_path p); done. }
  unfold bind at 1. unfold read_cstr at 1. rewrite Hi.
  unfold bind at 1, get at 1. cbv beta iota.
  unfold bind at 1, ask at 1. rewrite Hex. cbn [negb].
  unfold bind at 1, ctx_new at 1.
  set (h := fresh (dom (w_ctxs w))).
  assert (w_ctxs w !! h = None) as Hh by apply not_elem_of_dom, is_fresh.
  cbv beta iota.
  match goal with |- context [bind _ _ ?W] => set (w0 := W) end.
  assert (w_heap w0 = w_heap w) as Hw0 by reflexivity.
  destruct (dup_field_spec (input_path p) w0 Ri) as (p1 & hp1 & E1 & S1 & O1).
  rewrite Hw0 in S1, O1.
  unfold bind at 1. rewrite E1. clear E1. cbv beta iota.
  destruct (dup_field_spec (output_path p) (with_heap hp1 w0))
    as (p2 & hp2 & E2 & S2 & O2); [by eapply readable_mono|].
  cbn [with_heap w_heap] in S2, O2.
  unfold bind at 1. rewrite E2. clear E2. cbv beta iota.
  assert (w_heap w ⊆ hp2) as H02 by (by trans hp1).
  destruct (dup_field_spec (model_type p) (with_heap hp2 (with_heap hp1 w0)))
    as (p3 & hp3 & E3 & S3 & O3); [by eapply readable_mono|].
  cbn [with_heap w_heap] in S3, O3.
  unfold bind at 1. rewrite E3. clear E3. cbv beta iota.
  assert (w_heap w ⊆ hp3) as H03 by (by trans hp2).
  destruct (dup_field_spec (quantization p)
              (with_heap hp3 (with_heap hp2 (with_heap hp1 w0))))
    as (p4 & hp4 & E4 & S4 & O4); [by eapply readable_mono|].
  cbn [with_heap w_heap] in S4, O4.
  unfold bind at 1. rewrite E4. clear E4. cbv beta iota.
  assert (w_heap w ⊆ hp4) as H04 by (by trans hp3).
  destruct (dup_field_spec (vocab_type p)
              (with_heap hp4 (with_heap hp3 (with_heap hp2 (with_heap hp1 w0)))))
    as (p5 & hp5 & E5 & S5 & O5); [by eapply readable_mono|].
  cbn [with_heap w_heap] in S5, O5.
  unfold bind at 1. rewrite E5. clear E5. cbv beta iota.
  assert (w_heap w ⊆ hp5) as H05 by (by trans hp4).
  assert (hp3 ⊆ hp5) as H35 by (by trans hp4).
  assert (hp2 ⊆ hp5) as H25 by (by trans hp3).
  assert (hp1 ⊆ hp5) as H15 by (by trans hp2).
  assert (cstr_at hp5 (output_path p) = Some out) as Ho5
    by exact (cstr_at_mono _ _ _ _ H05 Ho).
  clearbody h. subst w0.
  unfold ctx_modify, log, ctx_get, read_cstr, modify, emit, ret, bind.
  cbn. rewrite lookup_insert_eq. cbn. rewrite Ho5. cbn.
  rewrite lookup_insert_eq. cbn. rewrite insert_insert_eq.
  destruct (log_cb p) eqn:L; cbn; eexists h, _, _; (split; [reflexivity|]).
  all: split;
    cbn [w_fs w_heap w_ctxs w_trace params progress cancelled
         input_path output_path model_type quantization vocab_type
         metadata_overrides vocab_only use_mmap num_threads
         pad_vocab progress_cb log_cb user_data];
    rewrite ?app_nil_r; try done.
  all: try (eapply owned_copy_back; [eassumption| |done|eassumption]; done).
  all: try (eapply owned_copy_mono; [eassumption| |eassumption]; done).
  all: try (eapply owned_copy_back;
            [eassumption| |
             |eapply owned_copy_mono; [| |eassumption]];
            try eassumption; try done; by eapply readable_mono).
  all: rewrite L, ?app_nil_r; reflexivity.
Qed.

(** ** Conversion: the checks before the backend *)

Lemma convert_cancelled w h c :
  w_ctxs w !! h = Some c → cancelled c = true →
  ∃ w' evs,
    gguf_convert (Some h) w = (Returns GGUF_ERROR_CANCELLED, w') ∧
    w_trace w' = w_trace w ++ evs ∧
    List.filter is_backend_event evs = [] ∧
    w_fs w' = w_fs w.
Proof.
  intros Hc Hx. unfold_api. rewrite Hc. open_ctx c; run; subst; run.
  all: eexists _, _; split; [reflexivity|]; split; [trace_ok|]; done.
Qed.

Lemma cancel_live w h c :
  w_ctxs w !! h = Some c →
  ∃ w1 c1,
    gguf_cancel (Some h) w = (Returns tt, w1) ∧
    w_ctxs w1 !! h = Some c1 ∧ cancelled c1 = true ∧ w_fs w1 = w_fs w.
Proof.
  intros Hc. unfold_api. rewrite Hc. open_ctx c; run.
  all: eexists _, _; split; [reflexivity|]; run; done.
Qed.

Lemma convert_invalid_quant w h c q :
  w_ctxs w !! h = Some c → cancelled c = false →
  cstr_at (w_heap w) (quantization (params c)) = Some q →
  valid_quant q QUANTIZATION_TYPES = false →
  ∃ w' evs,
    gguf_convert (Some h) w = (Returns GGUF_ERROR_INVALID_QUANTIZATION, w') ∧
    w_trace w' = w_trace w ++ evs ∧
    List.filter is_backend_event evs = [] ∧
    w_fs w' = w_fs w ∧
    g_last_error w' = "Invalid quantization type: " +:+ q.
Proof.
  intros Hc Hx Hq Hv. unfold_api. rewrite Hc. open_ctx c; run; subst; run.
  all: rewrite Hq; run; rewrite Hv; run.
  all: eexists _, _; split; [reflexivity|]; split; [trace_ok|]; done.
Qed.

Lemma convert_valid_quant w h c q :
  w_ctxs w !! h = Some c →
  cstr_at (w_heap w) (quantization (params c)) = Some q →
  valid_quant q QUANTIZATION_TYPES = true →
  (gguf_convert (Some h) w).1 ≠ Returns GGUF_ERROR_INVALID_QUANTIZATION.
Proof.
  intros Hc Hq Hv.
  destruct (gguf_convert (Some h) w) as [r w'] eqn:E. cbn. intros ->.
  unfold_api. rewrite Hc in E.
  open_ctx c;
    repeat (run; rewrite ?Hq, ?Hv in E; try discriminate E;
            try split_match E).
Qed.

(** C7: once [gguf_cancel] has been called on a context, [gguf_convert]
    returns [GGUF_ERROR_CANCELLED] and enters the backend at no point: no
    runtime initialisation, no external process, no quantize call; the file
    system is as it was. *)
Theorem cancel_then_convert w h c :
  w_ctxs w !! h = Some c →
  ∃ w1 w2,
    gguf_cancel (Some h) w = (Returns tt, w1) ∧
    gguf_convert (Some h) w1 = (Returns GGUF_ERROR_CANCELLED, w2) ∧
    backend_calls w1 w2 = [] ∧
    w_fs w2 = w_fs w.
Proof.
  intros Hc.
  destruct (cancel_live w h c Hc) as (w1 & c1 & E1 & Hc1 & Hx & Hfs).
  destruct (convert_cancelled w1 h c1 Hc1 Hx)
    as (w2 & evs & E2 & Ht & Hb & Hfs2).
  exists w1, w2. repeat split; try assumption.
  - unfold backend_calls. by rewrite (new_events_app _ _ _ Ht).
  - congruence.
Qed.

Lemma cancel_then_convert_witness :
  ∃ w1 w2,
    gguf_cancel (Some 1%positive) (job_world "m.gguf" "f16")
      = (Returns tt, w1) ∧
    gguf_convert (Some 1%positive) w1 = (Returns GGUF_ERROR_CANCELLED, w2) ∧
    backend_calls w1 w2 = [] ∧
    w_fs w2 = w_fs (job_world "m.gguf" "f16").
Proof.
  apply (cancel_then_convert (job_world "m.gguf" "f16") 1%positive (job false)).
  reflexivity.
Defined.

(** C3: the quantization identifier is checked when converting, not when
    creating. With readable parameters, an existing input and an
    identifier outside the enumerated set, [gguf_create_context] succeeds
    and [gguf_convert] on the context it made returns
    [GGUF_ERROR_INVALID_QUANTIZATION] with no backend call and the file
    system untouched; with an identifier of the set, [gguf_convert] never
    returns that code (on a [.gguf] input as on any other). *)
Theorem quantization_checked_at_convert :
  (∀ w p inp out q,
     params_readable (w_heap w) p →
     cstr_at (w_heap w) (input_path p) = Some inp →
     cstr_at (w_heap w) (output_path p) = Some out →
     cstr_at (w_heap w) (quantization p) = Some q →
     Fs.exists_ (w_fs w) inp = Yields true →
     q ∉ QUANTIZATION_TYPES →
     ∃ h w1 w2,
       gguf_create_context (Some p) w = (Returns (Some h), w1) ∧
       gguf_convert (Some h) w1
         = (Returns GGUF_ERROR_INVALID_QUANTIZATION, w2) ∧
       backend_calls w1 w2 = [] ∧
       w_fs w2 = w_fs w) ∧
  (∀ w h c q,
     w_ctxs w !! h = Some c →
     cstr_at (w_heap w) (quantization (params c)) = Some q →
     q ∈ QUANTIZATION_TYPES →
     (gguf_convert (Some h) w).1 ≠ Returns GGUF_ERROR_INVALID_QUANTIZATION).
Proof.
  split.
  - intros w p inp out q Rp Hi Ho Hq Hex Hn.
    destruct (create_context_ok w p inp out Rp Hi Ho Hex)
      as (h & c & w1 & E1 & C).
    assert (w_ctxs w1 !! h = Some c) as Hc
      by (rewrite (cr_ctxs _ _ _ _ _ _ _ C); apply lookup_insert_eq).
    assert (cstr_at (w_heap w1) (quantization (params c)) = Some q) as Hq1
      by (rewrite <- Hq; apply (cr_quant _ _ _ _ _ _ _ C)).
    destruct (convert_invalid_quant w1 h c q Hc
                (cr_cancelled _ _ _ _ _ _ _ C) Hq1
                (valid_quant_not_elem_of _ _ Hn))
      as (w2 & evs & E2 & Ht & Hb & Hfs & _).
    exists h, w1, w2. repeat split; try assumption.
    + unfold backend_calls. by rewrite (new_events_app _ _ _ Ht).
    + rewrite Hfs. apply (cr_fs _ _ _ _ _ _ _ C).
  - intros w h c q Hc Hq Hv. apply valid_quant_elem_of in Hv.
    by eapply convert_valid_quant.
Qed.

Lemma quantization_checked_at_convert_witness :
  (∃ h w1 w2,
     gguf_create_context (Some (sample_params "m.gguf" "out.gguf" "q4_k_xl"))
       empty_world = (Returns (Some h), w1) ∧
     gguf_convert (Some h) w1
       = (Returns GGUF_ERROR_INVALID_QUANTIZATION, w2) ∧
     backend_calls w1 w2 = [] ∧
     w_fs w2 = w_fs empty_world) ∧
  (gguf_convert (Some 1%positive) (job_world "m.gguf" "q6_k")).1
    ≠ Returns GGUF_ERROR_INVALID_QUANTIZATION.
Proof.
  split.
  - apply (proj1 quantization_checked_at_convert empty_world
             (sample_params "m.gguf" "out.gguf" "q4_k_xl")
             "m.gguf" "out.gguf" "q4_k_xl").
    + repeat split; first [ by left | right; eexists; reflexivity ].
    + reflexivity.
    + reflexivity.
    + reflexivity.
    + vm_compute. reflexivity.
    + apply (bool_decide_unpack _). vm_compute. exact I.
  - apply (proj2 quantization_checked_at_convert
             (job_world "m.gguf" "q6_k") 1%positive (job false) "q6_k").
    + reflexivity.
    + reflexivity.
    + apply (bool_decide_unpack _). vm_compute. exact I.
Defined.

(** ** Conversion: the dispatch *)




(** ** Progress *)

Lemma convert_success_progress w h c w' :
  w_ctxs w !! h = Some c →
  gguf_convert (Some h) w = (Returns GGUF_SUCCESS, w') →
  (progress_calls w w').*1
    = match progress_cb (params c) with
      | Some _ => [0; 1 # 10; 2 # 10; 3 # 10; 1]%Q
      | None => []
      end ∧
  Forall (λ x, is_Some x.2) (progress_calls w w') ∧
  gguf_get_progress (Some h) w' = (Returns 1%Q, w').
Proof.
  intros Hc E. unfold progress_calls, new_events. unfold_api.
  rewrite Hc in E.
  open_ctx c; crunch E.
  all: injection E as E; subst w'; run.
  all: rewrite <- ?app_assoc, ?drop_app_length, ?drop_all; cbn.
  all: split; [reflexivity|]; split; [repeat constructor; eauto | reflexivity].
Qed.

Lemma get_progress_live w h c :
  w_ctxs w !! h = Some c →
  gguf_get_progress (Some h) w = (Returns (progress c), w).
Proof. intros Hc. unfold_api. by rewrite Hc. Qed.

(** C8: a freshly created context reports progress [0.0]; after a
    [gguf_convert] that returned [GGUF_SUCCESS] the context reports
    progress [1.0], and the registered progress callback has been called
    with the checkpoints 0.0, 0.1, 0.2, 0.3, 1.0 in this order, which is
    non-decreasing, each time with a stage label. *)
Theorem progress_checkpoints :
  (∀ w p inp out,
     params_readable (w_heap w) p →
     cstr_at (w_heap w) (input_path p) = Some inp →
     cstr_at (w_heap w) (output_path p) = Some out →
     Fs.exists_ (w_fs w) inp = Yields true →
     ∃ h w1,
       gguf_create_context (Some p) w = (Returns (Some h), w1) ∧
       gguf_get_progress (Some h) w1 = (Returns 0%Q, w1)) ∧
  (∀ w h c w',
     w_ctxs w !! h = Some c →
     gguf_convert (Some h) w = (Returns GGUF_SUCCESS, w') →
     gguf_get_progress (Some h) w' = (Returns 1%Q, w') ∧
     ∀ cb, progress_cb (params c) = Some cb →
       (progress_calls w w').*1 = [0; 1 # 10; 2 # 10; 3 # 10; 1]%Q ∧
       Sorted Qle (progress_calls w w').*1 ∧
       Forall (λ x, is_Some x.2) (progress_calls w w')).
Proof.
  split.
  - intros w p inp out Rp Hi Ho Hex.
    destruct (create_context_ok w p inp out Rp Hi Ho Hex)
      as (h & c & w1 & E1 & C).
    exists h, w1. split; [exact E1|].
    rewrite <- (cr_progress _ _ _ _ _ _ _ C).
    apply get_progress_live.
    rewrite (cr_ctxs _ _ _ _ _ _ _ C). apply lookup_insert_eq.
  - intros w h c w' Hc E.
    destruct (convert_success_progress w h c w' Hc E) as (Hp & Hl & Hg).
    split; [exact Hg|]. intros cb Hcb. rewrite Hcb in Hp.
    split_and!; try assumption.
    rewrite Hp. repeat constructor; by vm_compute.
Qed.

Lemma progress_checkpoints_witness :
  (∃ h w1,
     gguf_create_context (Some (sample_params "hf" "out.gguf" "f16"))
       empty_world = (Returns (Some h), w1) ∧
     gguf_get_progress (Some h) w1 = (Returns 0%Q, w1)) ∧
  (progress_calls (job_world "hf" "f16")
     (gguf_convert (Some 1%positive) (job_world "hf" "f16")).2).*1
  = [0; 1 # 10; 2 # 10; 3 # 10; 1]%Q.
Proof.
  split.
  - apply (proj1 progress_checkpoints empty_world
             (sample_params "hf" "out.gguf" "f16") "hf" "out.gguf").
    + repeat split; first [ by left | right; eexists; reflexivity ].
    + reflexivity.
    + reflexivity.
    + vm_compute. reflexivity.
  - apply (proj2 progress_checkpoints (job_world "hf" "f16") 1%positive
             (job false)
             (gguf_convert (Some 1%positive) (job_world "hf" "f16")).2)
        with (cb := 1%positive).
    + reflexivity.
    + vm_compute. reflexivity.
    + reflexivity.
Defined.

(** ** What validation reads of the store *)

Lemma same_run_pure {A} info ip (f : world → outcome A) :
  (∀ w hp2, f (with_heap hp2 w) = f w) →
  same_run info ip (λ w, (f w, w)).
Proof. intros Hf w hp2 Ha. split; [apply Hf|]. by split. Qed.

Lemma same_run_ret {A} info ip (a : A) : same_run info ip (ret a).
Proof. by apply (same_run_pure info ip (λ _, Returns a)). Qed.

Lemma same_run_throw {A} info ip e : same_run info ip (@throw A e).
Proof. by apply (same_run_pure info ip (λ _, Throws e)). Qed.

Lemma same_run_get_fs info ip : same_run info ip (get w_fs).
Proof. by apply (same_run_pure info ip (λ w, Returns (w_fs w))). Qed.

Lemma same_run_ctx_get info ip h : same_run info ip (ctx_get h).
Proof.
  intros w hp2 Ha. unfold ctx_get. cbn.
  destruct (w_ctxs w !! h); by split.
Qed.

Lemma alike_stop {A} info ip (r : outcome A) w' hp2 :
  agree info ip (w_heap w') hp2 →
  alike info ip (r, w') (r, with_heap hp2 w').
Proof. intros Ha. split; [done|]. split; [done|exact Ha]. Qed.

Lemma same_run_bind {A B} info ip (m : M A) (k : A → M B) :
  same_run info ip m → (∀ a, same_run info ip (k a)) →
  same_run info ip (bind m k).
Proof.
  intros Hm Hk w hp2 Ha. unfold bind.
  destruct (Hm w hp2 Ha) as (Hr & Hw & Hag).
  destruct (m w) as [r w'], (m (with_heap hp2 w)) as [r2 w2].
  cbn in Hr, Hw, Hag. subst r2. rewrite Hw.
  destruct r as [a|e|]; [|by apply alike_stop..].
  apply Hk, Hag.
Qed.

Lemma same_run_try_catch {A} info ip (body : M A) (handler : exn → M A) :
  same_run info ip body → (∀ e, same_run info ip (handler e)) →
  same_run info ip (try_catch body handler).
Proof.
  intros Hm Hk w hp2 Ha. unfold try_catch.
  destruct (Hm w hp2 Ha) as (Hr & Hw & Hag).
  destruct (body w) as [r w'], (body (with_heap hp2 w)) as [r2 w2].
  cbn in Hr, Hw, Hag. subst r2. rewrite Hw.
  destruct r as [a|e|]; [by apply alike_stop| |by apply alike_stop].
  destruct (is_std_exception e); [|by apply alike_stop].
  apply Hk, Hag.
Qed.

Lemma same_run_ask {A} info ip (r : answer A) : same_run info ip (ask r).
Proof.
  unfold ask. destruct r as [a|e];
    [by apply (same_run_pure info ip (λ _, Returns a))
    |by apply (same_run_pure info ip (λ _, Throws e))].
Qed.

Lemma same_run_modify info ip (f : world → world) :
  (∀ w, w_heap (f w) = w_heap w) →
  (∀ w hp2, f (with_heap hp2 w) = with_heap hp2 (f w)) →
  same_run info ip (modify f).
Proof.
  intros Hh Hf w hp2 Ha. unfold modify, alike. rewrite Hf.
  cbn [fst snd]. split; [done|].
  assert (w_heap (with_heap hp2 (f w)) = hp2) as -> by reflexivity.
  split; [done|]. by rewrite Hh.
Qed.

Lemma same_run_set_error info ip msg : same_run info ip (set_error msg).
Proof. by apply same_run_modify. Qed.

Lemma same_run_emit info ip e : same_run info ip (emit e).
Proof. by apply same_run_modify. Qed.

Lemma same_run_log info ip h level msg : same_run info ip (log h level msg).
Proof.
  unfold log. apply same_run_bind; [apply same_run_ctx_get|].
  intros c. destruct (log_cb (params c));
    [apply same_run_emit | apply same_run_ret].
Qed.

Lemma same_run_when info ip b m :
  same_run info ip m → same_run info ip (when b m).
Proof. destruct b; [done | intros _; apply same_run_ret]. Qed.

Lemma same_run_read_input info ip : same_run info ip (read_cstr ip).
Proof.
  intros w hp2 Ha. unfold read_cstr. cbn. rewrite (proj1 Ha).
  destruct (cstr_at (w_heap w) ip); by split.
Qed.

Lemma same_run_read_info info ip : same_run info ip (read_info info).
Proof.
  intros w hp2 Ha. unfold read_info.
  destruct info as [| |a]; [by split..|].
  cbn. rewrite (proj2 Ha a eq_refl).
  destruct (w_heap w !! a) as [[]|]; by split.
Qed.

Lemma cstr_at_insert_info hp a i p :
  cstr_at (<[a := CInfo i]> hp) p
  = match p with
    | Heap b => if decide (a = b) then None else cstr_at hp p
    | _ => cstr_at hp p
    end.
Proof.
  destruct p as [| |b]; try reflexivity. unfold cstr_at.
  case_decide as E; [subst; by rewrite lookup_insert_eq|].
  by rewrite lookup_insert_ne.
Qed.

Lemma same_run_write_info info ip i : same_run info ip (write_info info i).
Proof.
  unfold write_info. apply same_run_bind; [apply same_run_read_info|].
  intros _. destruct info as [| |a];
    [by apply (same_run_pure _ ip (λ _, Undefined))..|].
  intros w hp2 [Hs Hc]. unfold modify. split; [done|]. split; [done|].
  cbn. split.
  - rewrite !cstr_at_insert_info. destruct ip; try done.
    by case_decide.
  - intros b [= <-]. by rewrite !lookup_insert_eq.
Qed.

Lemma same_run_modify_info info ip f :
  same_run info ip (modify_info info f).
Proof.
  unfold modify_info. apply same_run_bind; [apply same_run_read_info|].
  intros i. apply same_run_write_info.
Qed.

Lemma same_run_stoul info ip s : same_run info ip (stoul s).
Proof.
  unfold stoul.
  destruct (skip_space (Str.c_str s)) as [|[[] [] [] [] [] [] [] []] ?];
    cbv zeta beta iota;
    match goal with
    | |- context [digits ?x] => destruct (digits x)
    end;
    try apply same_run_throw;
    match goal with
    | |- context [ULONG_MAX <? ?v] => destruct (ULONG_MAX <? v)
    end; first [ apply same_run_throw | apply same_run_ret ].
Qed.

Lemma same_run_store_u32 info ip set v :
  same_run info ip (store_u32 info set v).
Proof.
  unfold store_u32. apply same_run_bind; [apply same_run_stoul|].
  intros n. apply same_run_modify_info.
Qed.

Lemma same_run_if_key info ip config k f :
  (∀ v, same_run info ip (f v)) → same_run info ip (if_key config k f).
Proof.
  intros Hf. unfold if_key. destruct (config !! k); [apply Hf|].
  apply same_run_ret.
Qed.

Lemma same_run_file_size info ip p : same_run info ip (file_size p).
Proof.
  unfold file_size. apply same_run_bind; [apply same_run_get_fs|].
  intros fs. apply same_run_ask.
Qed.

Lemma same_run_total_size info ip entries total :
  same_run info ip (total_size entries total).
Proof.
  revert total. induction entries as [|entry rest IH]; intros total; cbn.
  - apply same_run_ret.
  - apply same_run_bind; [apply same_run_get_fs|]. intros fs.
    apply same_run_bind; [apply same_run_ask|]. intros regular.
    apply same_run_bind.
    { destruct regular; [|apply same_run_ret].
      apply same_run_bind; [apply same_run_file_size|]. intros n.
      apply same_run_ret. }
    intros total'.
    apply same_run_bind; [apply same_run_ask|]. intros _. apply IH.
Qed.

Lemma same_run_extract_model_info info ip path :
  same_run info ip (extract_model_info path info).
Proof.
  unfold extract_model_info. apply same_run_bind; [apply same_run_get_fs|].
  intros fs.
  apply same_run_bind; [apply same_run_ask|]. intros dir.
  apply same_run_bind; [apply same_run_ask|]. intros found.
  cbv zeta. destruct (negb _); [apply same_run_ret|].
  destruct (Fs.open_read _ _) as [content|]; [|apply same_run_ret].
  repeat (apply same_run_bind; [|intros _]);
    try apply same_run_ret;
    apply same_run_if_key; intros v;
    first [ apply same_run_modify_info | apply same_run_store_u32 ].
Qed.

(** [gguf_validate_input] reads the store through the context's input
    path and the caller's [ModelInfo] only. *)
Lemma validate_reads_owned_strings w hp2 h c info :
  w_ctxs w !! h = Some c →
  agree info (input_path (params c)) (w_heap w) hp2 →
  alike info (input_path (params c))
    (gguf_validate_input (Some h) info w)
    (gguf_validate_input (Some h) info (with_heap hp2 w)).
Proof.
  intros Hc Ha.
  assert (∀ K : gguf_conversion_ctx → M Z,
            same_run info (input_path (params c)) (K c) →
            alike info (input_path (params c))
              (bind (ctx_get h) K w)
              (bind (ctx_get h) K (with_heap hp2 w))) as Hgen.
  { intros K HK. unfold bind, ctx_get. cbn [w_ctxs with_heap].
    rewrite Hc. apply HK, Ha. }
  unfold gguf_validate_input. apply Hgen. clear Hgen Ha Hc w hp2.
  apply same_run_bind; [apply same_run_read_input|]. intros inp.
  apply same_run_bind; [apply same_run_get_fs|]. intros fs.
  apply same_run_bind; [apply same_run_ask|]. intros format.
  destruct (Str.eqb _ _).
  { apply same_run_bind; [apply same_run_set_error|].
    intros _. apply same_run_ret. }
  apply same_run_bind; [apply same_run_log|]. intros _.
  apply same_run_bind; [|intros _; apply same_run_ret].
  destruct (is_null info); [apply same_run_ret|].
  apply same_run_bind; [apply same_run_write_info|]. intros _.
  apply same_run_bind; [apply same_run_extract_model_info|]. intros ok.
  apply same_run_bind; [apply same_run_when, same_run_log|]. intros _.
  apply same_run_try_catch; [|intros e; apply same_run_log].
  apply same_run_bind; [apply same_run_ask|]. intros dir.
  destruct dir.
  - apply same_run_bind; [apply same_run_ask|]. intros entries.
    apply same_run_bind; [apply same_run_total_size|]. intros total.
    apply same_run_modify_info.
  - apply same_run_bind; [apply same_run_file_size|]. intros n.
    apply same_run_modify_info.
Qed.

(** ** What a run reads of the store *)

Ltac split_goal :=
  match goal with
  | |- context [if ?b then _ else _] => is_var b; destruct b
  | |- context [is_null ?p] => is_var p; destruct p
  | |- context [match cstr_at ?h ?p with _ => _ end] =>
      destruct (cstr_at h p) eqn:?
  | |- context [negb (valid_quant ?q ?l)] => destruct (valid_quant q l) eqn:?
  | |- context [if ?a || ?b then _ else _] => destruct (a || b) eqn:?
  | |- context [if Str.eqb ?a ?b then _ else _] =>
      destruct (Str.eqb a b) eqn:?
  | |- context [run_system ?b ?c ?f] =>
      destruct (run_system b c f) as [? ?] eqn:?
  | |- context [run_quantize ?b ?i ?o ?t ?n ?f] =>
      destruct (run_quantize b i o t n f) as [[?|?] ?] eqn:?
  | |- context [bool_decide ?P] => destruct (bool_decide P) eqn:?
  | |- context [match Fs.is_directory ?f ?p with _ => _ end] =>
      destruct (Fs.is_directory f p) as [?|?] eqn:?
  | |- context [is_std_exception ?e] => destruct (is_std_exception e) eqn:?
  end.

(** [gguf_convert] reads the store through four pointers of the context
    and writes none of it: on a store that shows the same strings there, it
    does the same. *)
Lemma convert_reads_owned_strings w hp2 h c :
  w_ctxs w !! h = Some c →
  cstr_at hp2 (input_path (params c))
    = cstr_at (w_heap w) (input_path (params c)) →
  cstr_at hp2 (output_path (params c))
    = cstr_at (w_heap w) (output_path (params c)) →
  cstr_at hp2 (quantization (params c))
    = cstr_at (w_heap w) (quantization (params c)) →
  cstr_at hp2 (model_type (params c))
    = cstr_at (w_heap w) (model_type (params c)) →
  gguf_convert (Some h) (with_heap hp2 w)
  = let '(r, w') := gguf_convert (Some h) w in (r, with_heap hp2 w').
Proof.
  intros Hc Hi Ho Hq Hm. unfold_api. cbn. rewrite Hc.
  open_ctx c; cbn in Hi, Ho, Hq, Hm.
  all: repeat (run; rewrite ?Hi, ?Ho, ?Hq, ?Hm; simplify_eq;
               try reflexivity; try split_goal).
Qed.

(** ** Creation and ownership *)

(** C5, as the code has it: with readable parameters,
    [gguf_create_context] returns a handle exactly when the parameter
    struct and its input and output paths are non-null and the input path
    exists (an empty output path is accepted); it returns null with the
    error set when a pointer is null or the input path does not exist; and
    where the status of the input path cannot be determined, the
    [filesystem_error] of [fs::exists] leaves the call, which has then
    changed nothing. On success the five [char*] fields are copied into
    cells that did not exist before, null staying null, while the
    [metadata_overrides] pointer is taken over as it is; whatever the
    caller then does to the cells it had, the context's strings read the
    same and [gguf_convert] and [gguf_validate_input] behave the same. *)
Theorem create_context_ownership w arg :
  (∀ p, arg = Some p → params_readable (w_heap w) p) →
  create_post w arg.
Proof.
  intros Hr. unfold create_post.
  destruct arg as [p|]; [|by cbn].
  specialize (Hr p eq_refl).
  destruct (cstr_at (w_heap w) (input_path p)) as [inp|] eqn:Hi.
  2:{ destruct Hr as ([Hn|[s Hs]] & _); [|congruence].
      unfold gguf_create_context. rewrite Hn. by cbn. }
  destruct (cstr_at (w_heap w) (output_path p)) as [out|] eqn:Ho.
  2:{ destruct Hr as (_ & [Hn|[s Hs]] & _); [|congruence].
      unfold gguf_create_context. rewrite Hn.
      destruct (input_path p); by cbn. }
  destruct (Fs.exists_ (w_fs w) inp) as [[]|e] eqn:Hex.
  2,3:
    unfold gguf_create_context;
    assert (is_null (input_path p) || is_null (output_path p) = false)
      as -> by (destruct (input_path p), (output_path p); done);
    unfold bind, read_cstr, get, ask, set_error, modify, ret;
    rewrite Hi; cbn; rewrite Hex; by cbn.
  destruct (create_context_ok w p inp out Hr Hi Ho Hex)
    as (h & c & w1 & -> & C).
  exists h, c. split; [done|]. split; [done|]. intros hp2 Hag.
  pose proof (owned_copy_stable _ _ hp2 _ _ (cr_input _ _ _ _ _ _ _ C) Hag)
    as H1.
  pose proof (owned_copy_stable _ _ hp2 _ _ (cr_output _ _ _ _ _ _ _ C) Hag)
    as H2.
  pose proof (owned_copy_stable _ _ hp2 _ _ (cr_model _ _ _ _ _ _ _ C) Hag)
    as H3.
  pose proof (owned_copy_stable _ _ hp2 _ _ (cr_quant _ _ _ _ _ _ _ C) Hag)
    as H4.
  pose proof (owned_copy_stable _ _ hp2 _ _ (cr_vocab _ _ _ _ _ _ _ C) Hag)
    as H5.
  assert (w_ctxs w1 !! h = Some c) as Hc
    by (rewrite (cr_ctxs _ _ _ _ _ _ _ C); apply lookup_insert_eq).
  split_and!; try congruence.
  - apply (convert_reads_owned_strings w1 hp2 h c Hc).
    + rewrite H1. symmetry. apply (cr_input _ _ _ _ _ _ _ C).
    + rewrite H2. symmetry. apply (cr_output _ _ _ _ _ _ _ C).
    + rewrite H4. symmetry. apply (cr_quant _ _ _ _ _ _ _ C).
    + rewrite H3. symmetry. apply (cr_model _ _ _ _ _ _ _ C).
  - intros info Hinfo.
    apply (validate_reads_owned_strings w1 hp2 h c info Hc).
    split; [|exact Hinfo].
    rewrite H1. symmetry. apply (cr_input _ _ _ _ _ _ _ C).
Qed.

(** At a caller whose strings lie in the store: once with an input that
    exists, once with one below a directory that may not be searched. *)
Lemma create_context_ownership_witness :
  create_post (caller_world "m.gguf" "f16") (Some (caller_params "f16")) ∧
  create_post (caller_world "sealed/model.bin" "f16")
    (Some (caller_params "f16")).
Proof.
  split; apply create_context_ownership; intros p [= <-];
    repeat split; first [ by left | right; eexists; reflexivity ].
Defined.

(** The three outcomes on that caller, and the caller overwriting and
    freeing its strings after the creation: the context's copies are in
    cells of their own and read as before. *)
Example create_context_outcomes :
  let made := gguf_create_context (Some (caller_params "f16"))
                (caller_world "m.gguf" "f16") in
  made.1 = Returns (Some 1%positive) ∧
  params <$> w_ctxs made.2 !! 1%positive
    = Some {| input_path := Heap 23; output_path := Heap 24;
              model_type := NULL; quantization := Heap 25;
              vocab_only := 0; use_mmap := 1; num_threads := 4;
              vocab_type := NULL; pad_vocab := 0;
              metadata_overrides := NULL; progress_cb := Some 1%positive;
              log_cb := Some 2%positive; user_data := 7 |} ∧
  (gguf_convert (Some 1%positive)
     (with_heap (<[20%positive := CStr "gone"]>
                   (delete 21%positive (delete 22%positive (w_heap made.2))))
        made.2)).1
  = (gguf_convert (Some 1%positive) made.2).1 ∧
  gguf_create_context (Some (caller_params "f16"))
    (caller_world "absent.gguf" "f16")
  = (Returns None,
     with_last_error "Input path not found: absent.gguf"
       (caller_world "absent.gguf" "f16")) ∧
  gguf_create_context (Some (caller_params "f16"))
    (caller_world "sealed/model.bin" "f16")
  = (Throws (Fs.error "status" "Permission denied" "sealed/model.bin"),
     caller_world "sealed/model.bin" "f16").
Proof. by_evaluation. Qed.

(** C5, the claim as stated fails: creation succeeds although the output
    path is empty, and the context's override list is the caller's own
    cell, not a copy, so that what the caller writes there the context
    sees. *)
Lemma create_context_shares_metadata :
  let r := gguf_create_context (Some sharing_params) sharing_world in
  cstr_at (w_heap sharing_world) (output_path sharing_params)
    = Some EmptyString ∧
  r.1 = Returns (Some 1%positive) ∧
  (metadata_overrides ∘ params <$> w_ctxs r.2 !! 1%positive)
    = Some (Heap 5) ∧
  w_heap sharing_world !! 5%positive
    = Some (CArr [Static "general.name=demo"]) ∧
  dom (w_heap r.2) ∖ dom (w_heap sharing_world)
    = {[ 6%positive; 7%positive; 8%positive ]}.
Proof. by_evaluation. Qed.

(** ** Format detection *)

Lemma detect_format_value w path s :
  cstr_at (w_heap w) path = Some s →
  (gguf_detect_format path w).1
  = match detect_format_impl (w_fs w) s with
    | Yields format =>
        Returns (if Str.eqb format "" then None else Some format)
    | Fails e => Throws e
    end.
Proof.
  intros Hs. unfold gguf_detect_format, read_cstr, get, ask, modify, ret, bind.
  destruct path; [discriminate Hs| |]; cbn; rewrite Hs;
    by destruct (detect_format_impl _ _).
Qed.

Lemma detect_format_unreadable w path :
  cstr_at (w_heap w) path = None →
  (gguf_detect_format path w).1
  = if is_null path then Returns None else Undefined.
Proof.
  intros Hs. unfold gguf_detect_format, read_cstr, get, modify, ret, bind.
  destruct path; cbn; try reflexivity; rewrite Hs; reflexivity.
Qed.

Lemma detect_format_throws w path s e :
  cstr_at (w_heap w) path = Some s →
  detect_format_impl (w_fs w) s = Fails e →
  gguf_detect_format path w = (Throws e, w).
Proof.
  intros Hs He. unfold gguf_detect_format, read_cstr, get, ask, bind.
  destruct path; [discriminate Hs| |]; cbn; by rewrite Hs, He.
Qed.

(** C6, as the code has it: [gguf_detect_format] is a function of the path
    and the file system, and a second call on the same path ends as the
    first did (and leaves the world as the first left it); an existing path
    with the extension [.gguf] yields [gguf] whatever the file system holds
    besides; a path that does not exist yields null, whatever its
    extension; but a path whose status cannot be determined, or below which
    that of a probed file cannot, yields no null: the [filesystem_error]
    leaves the call, which has then changed nothing. *)
Theorem detect_format_deterministic :
  (∀ w path,
     let '(r, w1) := gguf_detect_format path w in
     gguf_detect_format path w1 = (r, w1)) ∧
  (∀ w w' path,
     w_fs w' = w_fs w →
     cstr_at (w_heap w') path = cstr_at (w_heap w) path →
     (gguf_detect_format path w').1 = (gguf_detect_format path w).1) ∧
  (∀ w path s,
     cstr_at (w_heap w) path = Some s →
     Fs.exists_ (w_fs w) s = Yields true → Path.extension s = ".gguf" →
     (gguf_detect_format path w).1 = Returns (Some "gguf")) ∧
  (∀ w path s,
     cstr_at (w_heap w) path = Some s →
     Fs.exists_ (w_fs w) s = Yields false →
     (gguf_detect_format path w).1 = Returns None) ∧
  (∀ w path s e,
     cstr_at (w_heap w) path = Some s →
     Fs.exists_ (w_fs w) s = Fails e →
     gguf_detect_format path w = (Throws e, w)) ∧
  (∀ w path s e,
     cstr_at (w_heap w) path = Some s →
     detect_format_impl (w_fs w) s = Fails e →
     gguf_detect_format path w = (Throws e, w)).
Proof.
  split_and!.
  - intros w path.
    unfold gguf_detect_format, read_cstr, get, ask, modify, ret, bind.
    destruct path; cbn; try reflexivity;
      destruct (cstr_at _ _) eqn:E; cbn; rewrite ?E; try reflexivity;
      destruct (detect_format_impl _ _) eqn:D;
      repeat (cbn; rewrite ?E, ?D); reflexivity.
  - intros w w' path Hfs Hs.
    destruct (cstr_at (w_heap w) path) as [s|] eqn:E.
    + rewrite (detect_format_value w path s E).
      rewrite (detect_format_value w' path s Hs). by rewrite Hfs.
    + rewrite (detect_format_unreadable w path E).
      by rewrite (detect_format_unreadable w' path Hs).
  - intros w path s Hs Hex Hext. rewrite (detect_format_value w path s Hs).
    unfold detect_format_impl. rewrite Hex, Hext. reflexivity.
  - intros w path s Hs Hex. rewrite (detect_format_value w path s Hs).
    unfold detect_format_impl. rewrite Hex. reflexivity.
  - intros w path s e Hs Hex. apply (detect_format_throws w path s e Hs).
    unfold detect_format_impl. by rewrite Hex.
  - intros w path s e. apply detect_format_throws.
Qed.

Lemma detect_format_deterministic_witness :
  (gguf_detect_format (Static "m.gguf") empty_world).1
    = Returns (Some "gguf") ∧
  (gguf_detect_format (Static "absent.bin") empty_world).1 = Returns None ∧
  (gguf_detect_format (Static "hf")
     (with_last_error "stale" empty_world)).1
    = (gguf_detect_format (Static "hf") empty_world).1 ∧
  gguf_detect_format (Static "sealed/model.bin") empty_world
    = (Throws (Fs.error "status" "Permission denied" "sealed/model.bin"),
       empty_world).
Proof.
  destruct detect_format_deterministic as (_ & H2 & H3 & H4 & H5 & _).
  split_and!.
  - apply (H3 empty_world (Static "m.gguf") "m.gguf");
      vm_compute; reflexivity.
  - apply (H4 empty_world (Static "absent.bin") "absent.bin");
      vm_compute; reflexivity.
  - apply (H2 empty_world (with_last_error "stale" empty_world)
             (Static "hf")); reflexivity.
  - apply (H5 empty_world (Static "sealed/model.bin") "sealed/model.bin");
      vm_compute; reflexivity.
Defined.

(** C6, the claim as stated fails: a path named [model.gguf] that does not
    exist does not yield [gguf]; the existence test comes first and the
    result is null. *)
Lemma detect_format_absent_gguf :
  Path.extension "model.gguf" = ".gguf" ∧
  Fs.exists_ (w_fs empty_world) "model.gguf" = Yields false ∧
  (gguf_detect_format (Static "model.gguf") empty_world).1 = Returns None ∧
  (gguf_detect_format (Static "model.gguf") empty_world).1
    ≠ Returns (Some "gguf").
Proof. by_evaluation. Qed.

(** ** Null arguments *)

(** C9: every entry point accepts a null handle or pointer: freeing and
    cancelling do nothing, the progress is the sentinel [-1.0], the
    cancellation flag reads 0, [gguf_default_params] writes nothing and
    [gguf_detect_format] returns null, the world being left as it was; the
    remaining entry points return their error code (or null). *)
Theorem null_arguments_tolerated w info :
  gguf_free_context None w = (Returns tt, w) ∧
  gguf_cancel None w = (Returns tt, w) ∧
  gguf_get_progress None w = (Returns (-1)%Q, w) ∧
  gguf_is_cancelled None w = (Returns 0, w) ∧
  gguf_default_params None w = (Returns None, w) ∧
  gguf_detect_format NULL w = (Returns None, w) ∧
  (gguf_validate_input None info w).1 = Returns GGUF_ERROR_INVALID_ARGS ∧
  (gguf_convert None w).1 = Returns GGUF_ERROR_INVALID_ARGS ∧
  (gguf_create_context None w).1 = Returns None.
Proof. repeat match goal with |- _ ∧ _ => split end; reflexivity. Qed.

(** ** The quantization table against the type table *)

Example target_ftype_table :
  target_ftype <$> QUANTIZATION_TYPES
  = [ LLAMA_FTYPE_ALL_F32; LLAMA_FTYPE_MOSTLY_F16;
      LLAMA_FTYPE_MOSTLY_Q4_0; LLAMA_FTYPE_MOSTLY_Q4_1;
      LLAMA_FTYPE_MOSTLY_Q5_0; LLAMA_FTYPE_MOSTLY_Q5_1;
      LLAMA_FTYPE_MOSTLY_Q8_0; LLAMA_FTYPE_MOSTLY_F16;
      LLAMA_FTYPE_MOSTLY_Q2_K; LLAMA_FTYPE_MOSTLY_Q3_K_S;
      LLAMA_FTYPE_MOSTLY_Q3_K_M; LLAMA_FTYPE_MOSTLY_Q3_K_L;
      LLAMA_FTYPE_MOSTLY_Q4_K_S; LLAMA_FTYPE_MOSTLY_Q4_K_M;
      LLAMA_FTYPE_MOSTLY_Q5_K_S; LLAMA_FTYPE_MOSTLY_Q5_K_M;
      LLAMA_FTYPE_MOSTLY_Q6_K ].
Proof. vm_compute. reflexivity. Qed.

(** C2, the code at the failing input: [q8_1] passes the validation
    against [QUANTIZATION_TYPES], no arm of the type chain names it, and
    [gguf_convert] on a [.gguf] input hands the quantizer the 16-bit float
    default, the type of [f16]. *)
Theorem q8_1_quantizes_as_f16 :
  valid_quant "q8_1" QUANTIZATION_TYPES = true ∧
  target_ftype "q8_1" = LLAMA_FTYPE_MOSTLY_F16 ∧
  target_ftype "q8_1" = target_ftype "f16" ∧
  gguf_convert (Some 1%positive) (job_world "m.gguf" "q8_1")
  = (Returns GGUF_SUCCESS,
     (gguf_convert (Some 1%positive) (job_world "m.gguf" "q8_1")).2) ∧
  backend_calls (job_world "m.gguf" "q8_1")
    (gguf_convert (Some 1%positive) (job_world "m.gguf" "q8_1")).2
  = [ LlamaBackendInit;
      LlamaModelQuantize "m.gguf" "out.gguf" LLAMA_FTYPE_MOSTLY_F16 4;
      LlamaBackendFree ].
Proof. by_evaluation. Qed.

(** ** Exceptions out of validation *)

(** C4, the code at the failing input: beside [bad/model.gguf] lies a
    [config.json] whose line [hidden_size: null] holds no number;
    [std::stoul] throws [std::invalid_argument] outside every [try] block
    of [gguf_validate_input], the exception leaves the function, and the
    caller's struct stays zeroed. *)
Theorem validate_input_lets_stoul_escape :
  (gguf_validate_input (Some 1%positive) (Heap 9)
     (job_world "bad/model.gguf" "f16")).1
  = Throws (invalid_argument "stoul") ∧
  detect_format_impl sample_fs "bad/model.gguf" = Yields "gguf" ∧
  parse_config (unlines [ "hidden_size: null" ])
  = {[ "hidden_size" := "null" ]} ∧
  (gguf_validate_input (Some 1%positive) NULL
     (job_world "bad/model.gguf" "f16")).1
  = Returns GGUF_SUCCESS.
Proof. by_evaluation. Qed.

(** ** The frame of validation *)

Lemma validate_frame_refl info w : validate_frame info w w.
Proof.
  split; try reflexivity.
  - intros a. by left.
  - exists []. split; [by rewrite app_nil_r | constructor].
Qed.

Lemma validate_frame_trans info w1 w2 w3 :
  validate_frame info w1 w2 → validate_frame info w2 w3 →
  validate_frame info w1 w3.
Proof.
  intros [C1 F1 S1 B1 H1 (e1 & T1 & L1)] [C2 F2 S2 B2 H2 (e2 & T2 & L2)].
  split; try congruence.
  - intros a. destruct (H1 a) as [E1|(Hi & i & i' & Ha & Hb)],
      (H2 a) as [E2|(Hi2 & j & j' & Hc & Hd)].
    + left. congruence.
    + right. split; [done|]. exists j, j'. split; congruence.
    + right. split; [done|]. exists i, i'. split; congruence.
    + right. split; [done|]. exists i, j'. split; congruence.
  - exists (e1 ++ e2). split.
    + rewrite T2, T1. by rewrite app_assoc.
    + by apply Forall_app.
Qed.

Lemma frames_ret {A} info (a : A) : frames info (ret a).
Proof. intros w. apply validate_frame_refl. Qed.

Lemma frames_throw {A} info e : frames info (@throw A e).
Proof. intros w. apply validate_frame_refl. Qed.

Lemma frames_undefined {A} info : frames info (@undefined A).
Proof. intros w. apply validate_frame_refl. Qed.

Lemma frames_get {A} info (f : world → A) : frames info (get f).
Proof. intros w. apply validate_frame_refl. Qed.

Lemma frames_bind {A B} info (m : M A) (k : A → M B) :
  frames info m → (∀ a, frames info (k a)) → frames info (bind m k).
Proof.
  intros Hm Hk w. unfold bind. specialize (Hm w).
  destruct (m w) as [[a|e|] w']; cbn in *; try done.
  eapply validate_frame_trans; [exact Hm | apply Hk].
Qed.

Lemma frames_try_catch {A} info (body : M A) (handler : exn → M A) :
  frames info body → (∀ e, frames info (handler e)) →
  frames info (try_catch body handler).
Proof.
  intros Hm Hk w. unfold try_catch. specialize (Hm w).
  destruct (body w) as [[a|e|] w']; cbn in *; try done.
  destruct (is_std_exception e); [|done].
  eapply validate_frame_trans; [exact Hm | apply Hk].
Qed.

Lemma frames_ask {A} info (r : answer A) : frames info (ask r).
Proof. intros w. unfold ask. destruct r; apply validate_frame_refl. Qed.

Lemma frames_set_error info msg : frames info (set_error msg).
Proof.
  intros w. split; try reflexivity.
  - intros a. by left.
  - exists []. split; [cbn; by rewrite app_nil_r | constructor].
Qed.

Lemma frames_ctx_get info h : frames info (ctx_get h).
Proof.
  intros w. unfold ctx_get. destruct (w_ctxs w !! h);
    apply validate_frame_refl.
Qed.

Lemma frames_read_cstr info p : frames info (read_cstr p).
Proof.
  intros w. unfold read_cstr. destruct (cstr_at (w_heap w) p);
    apply validate_frame_refl.
Qed.

Lemma frames_log info h level msg : frames info (log h level msg).
Proof.
  unfold log. apply frames_bind; [apply frames_ctx_get|].
  intros c. destruct (log_cb (params c)); [|apply frames_ret].
  intros w. split; try reflexivity.
  - intros a. by left.
  - eexists. split; [reflexivity|]. by repeat constructor.
Qed.

Lemma frames_when info b m : frames info m → frames info (when b m).
Proof. destruct b; [done | intros _; apply frames_ret]. Qed.

Lemma frames_read_info info p : frames info (read_info p).
Proof.
  intros w. unfold read_info.
  destruct p; try apply validate_frame_refl.
  destruct (w_heap w !! a) as [[]|]; apply validate_frame_refl.
Qed.

Lemma frames_write_info info i : frames info (write_info info i).
Proof.
  intros w. unfold write_info, read_info, bind, modify, undefined.
  destruct info as [| |a]; try apply validate_frame_refl.
  destruct (w_heap w !! a) as [[| |i0]|] eqn:E;
    try apply validate_frame_refl.
  split; try reflexivity.
  - intros b. cbn. destruct (decide (a = b)) as [<-|Hne].
    + right. split; [done|]. exists i0, i. by rewrite lookup_insert_eq.
    + left. by rewrite lookup_insert_ne.
  - exists []. split; [cbn; by rewrite app_nil_r | constructor].
Qed.

Lemma frames_modify_info info f : frames info (modify_info info f).
Proof.
  unfold modify_info. apply frames_bind; [apply frames_read_info|].
  intros i. apply frames_write_info.
Qed.

Lemma frames_stoul info s : frames info (stoul s).
Proof.
  intros w. unfold stoul.
  destruct (skip_space (Str.c_str s)) as [|[[] [] [] [] [] [] [] []] ?];
    cbv zeta beta iota;
    match goal with
    | |- context [digits ?x] => destruct (digits x)
    end;
    try apply validate_frame_refl;
    match goal with
    | |- context [ULONG_MAX <? ?v] => destruct (ULONG_MAX <? v)
    end; apply validate_frame_refl.
Qed.

Lemma frames_store_u32 info set v : frames info (store_u32 info set v).
Proof.
  unfold store_u32. apply frames_bind; [apply frames_stoul|].
  intros n. apply frames_modify_info.
Qed.

Lemma frames_if_key info config k f :
  (∀ v, frames info (f v)) → frames info (if_key config k f).
Proof.
  intros Hf. unfold if_key. destruct (config !! k); [apply Hf|].
  apply frames_ret.
Qed.

Lemma frames_file_size info p : frames info (file_size p).
Proof.
  unfold file_size. apply frames_bind; [apply frames_get|].
  intros fs. apply frames_ask.
Qed.

Lemma frames_total_size info entries total :
  frames info (total_size entries total).
Proof.
  revert total. induction entries as [|entry rest IH]; intros total; cbn.
  - apply frames_ret.
  - apply frames_bind; [apply frames_get|]. intros fs.
    apply frames_bind; [apply frames_ask|]. intros regular.
    apply frames_bind.
    { destruct regular; [|apply frames_ret].
      apply frames_bind; [apply frames_file_size|]. intros n.
      apply frames_ret. }
    intros total'.
    apply frames_bind; [apply frames_ask|]. intros _. apply IH.
Qed.

Lemma frames_extract_model_info info path :
  frames info (extract_model_info path info).
Proof.
  unfold extract_model_info. apply frames_bind; [apply frames_get|].
  intros fs.
  apply frames_bind; [apply frames_ask|]. intros dir.
  apply frames_bind; [apply frames_ask|]. intros found.
  cbv zeta. destruct (negb _); [apply frames_ret|].
  destruct (Fs.open_read _ _) as [content|]; [|apply frames_ret].
  repeat (apply frames_bind; [|intros _]);
    try apply frames_ret;
    apply frames_if_key; intros v;
    first [ apply frames_modify_info | apply frames_store_u32 ].
Qed.

(** C10: [gguf_validate_input] leaves every context as it was
    (parameters, progress, cancellation flag, stage label), and the file
    system, the detector's buffer and the backend with them; of the store
    it changes at most the caller's [ModelInfo] cell; to the trace it only
    adds calls of the log callback. This holds however the call ends. *)
Theorem validate_input_frame ctx info w :
  validate_frame info w (gguf_validate_input ctx info w).2.
Proof.
  revert w. change (frames info (gguf_validate_input ctx info)).
  unfold gguf_validate_input. destruct ctx as [h|].
  2:{ apply frames_bind; [apply frames_set_error|].
      intros _. apply frames_ret. }
  apply frames_bind; [apply frames_ctx_get|]. intros c.
  apply frames_bind; [apply frames_read_cstr|]. intros inp.
  apply frames_bind; [apply frames_get|]. intros fs.
  apply frames_bind; [apply frames_ask|]. intros format.
  destruct (Str.eqb _ _).
  { apply frames_bind; [apply frames_set_error|].
    intros _. apply frames_ret. }
  apply frames_bind; [apply frames_log|]. intros _.
  apply frames_bind; [|intros _; apply frames_ret].
  destruct (is_null info); [apply frames_ret|].
  apply frames_bind; [apply frames_write_info|]. intros _.
  apply frames_bind; [apply frames_extract_model_info|]. intros ok.
  apply frames_bind; [apply frames_when, frames_log|]. intros _.
  apply frames_try_catch; [|intros e; apply frames_log].
  apply frames_bind; [apply frames_ask|]. intros dir.
  destruct dir.
  - apply frames_bind; [apply frames_ask|]. intros entries.
    apply frames_bind; [apply frames_total_size|]. intros total.
    apply frames_modify_info.
  - apply frames_bind; [apply frames_file_size|]. intros n.
    apply frames_modify_info.
Qed.

(** The same on a concrete run: the context of [job_world] after a
    validation that fills the caller's struct. *)
Example validate_input_frame_sample :
  let w := job_world "hf" "f16" in
  let r := gguf_validate_input (Some 1%positive) (Heap 9) w in
  r.1 = Returns GGUF_SUCCESS ∧
  w_ctxs r.2 = w_ctxs w ∧
  w_heap r.2 !! 9%positive
    = Some (CInfo (set_mi_file_size 7 zero_info)) ∧
  w_trace r.2
    = [ LogCb 2 1 "Detected format: safetensors" 7;
        LogCb 2 2 "Warning: Could not extract full model info from config" 7 ].
Proof. by_evaluation. Qed.

(** And on a directory with a well-formed [config.json]: the recognised
    keys land in the caller's struct, the sizes of the regular files below
    the directory add up. *)
Example validate_input_fills_info :
  let w := job_world "llama" "f16" in
  let r := gguf_validate_input (Some 1%positive) (Heap 9) w in
  r.1 = Returns GGUF_SUCCESS ∧
  w_ctxs r.2 = w_ctxs w ∧
  w_heap r.2 !! 9%positive
    = Some (CInfo {| mi_model_type := "llama";
                     mi_architecture := EmptyString;
                     mi_parameter_count := 0; mi_num_layers := 32;
                     mi_hidden_size := 4096; mi_vocab_size := 32000;
                     mi_context_length := 4096;
                     mi_quantization := EmptyString;
                     mi_file_size := 146 |}) ∧
  w_trace r.2 = [ LogCb 2 1 "Detected format: pytorch" 7 ].
Proof. by_evaluation. Qed.

(** * Further properties *)

(** ** The outcomes of a conversion *)

Lemma convert_outcome w h c code w' :
  w_ctxs w !! h = Some c →
  gguf_convert (Some h) w = (Returns code, w') →
  ∃ p st,
    w_ctxs w' = <[h := with_progress p st c]> (w_ctxs w) ∧
    w_heap w' = w_heap w ∧
    convert_row (g_last_error w) (w_fs w)
      (cstr_at (w_heap w) (input_path (params c)))
      code p st (g_last_error w') (backend_calls w w').
Proof.
  intros Hc E. unfold backend_calls, new_events. unfold_api.
  rewrite Hc in E.
  open_ctx c; crunch E.
  all: injection E as E1 E2; subst code w'; run.
  all: rewrite <- ?app_assoc, ?drop_app_length, ?drop_all; cbn.
  all: eexists _, _; split;
    [rewrite ?insert_insert_eq; reflexivity|]; split; [reflexivity|].
  all: solve [ econstructor;
               first [ eapply bool_decide_eq_true_1; eassumption
                     | reflexivity
                     | eassumption ] ].
Qed.

Lemma append_nonempty a s t : String a s +:+ t ≠ EmptyString.
Proof. unfold String.append. discriminate. Qed.

(** X1: a [gguf_convert] that returns writes nothing to the store, creates
    and destroys no context, leaves every other context as it was, and of
    its own context keeps the parameters and the cancellation flag: all it
    changes there is the progress and the stage label. *)
Theorem convert_frame w h c code w' :
  w_ctxs w !! h = Some c →
  gguf_convert (Some h) w = (Returns code, w') →
  w_heap w' = w_heap w ∧
  dom (w_ctxs w') = dom (w_ctxs w) ∧
  (∀ k, k ≠ h → w_ctxs w' !! k = w_ctxs w !! k) ∧
  ∃ c', w_ctxs w' !! h = Some c' ∧
        params c' = params c ∧ cancelled c' = cancelled c.
Proof.
  intros Hc E.
  destruct (convert_outcome w h c code w' Hc E) as (p & st & Hx & Hh & _).
  split; [exact Hh|]. rewrite Hx. split_and!.
  - rewrite dom_insert_L.
    apply subseteq_union_1_L, singleton_subseteq_l.
    by apply elem_of_dom_2 with c.
  - intros k Hk. by rewrite lookup_insert_ne.
  - exists (with_progress p st c). by rewrite lookup_insert_eq.
Qed.

Lemma convert_frame_witness :
  w_heap (gguf_convert (Some 1%positive) (job_world "hf" "f16")).2
  = w_heap (job_world "hf" "f16").
Proof.
  apply (convert_frame (job_world "hf" "f16") 1%positive (job false)
           GGUF_SUCCESS
           (gguf_convert (Some 1%positive) (job_world "hf" "f16")).2).
  - reflexivity.
  - vm_compute. reflexivity.
Defined.

(** X2: the progress a context reports after [gguf_convert] is fixed by
    the result code: 1.0 after success, 0.0 after a cancelled run or an
    invalid quantization, 0.1 after an unsupported format, 0.3 after a
    failed conversion; except that a conversion which failed because the
    status of the input path could not be determined stopped at 0.1. *)
Theorem convert_progress_by_code w h c code w' :
  w_ctxs w !! h = Some c →
  gguf_convert (Some h) w = (Returns code, w') →
  ∃ p,
    gguf_get_progress (Some h) w' = (Returns p, w') ∧
    (code = GGUF_SUCCESS → p = 1%Q) ∧
    (code = GGUF_ERROR_CANCELLED → p = 0%Q) ∧
    (code = GGUF_ERROR_INVALID_QUANTIZATION → p = 0%Q) ∧
    (code = GGUF_ERROR_INVALID_FORMAT → p = (1 # 10)%Q) ∧
    (code = GGUF_ERROR_CONVERSION_FAILED →
     p = (3 # 10)%Q ∨
     (p = (1 # 10)%Q ∧
      ∃ inp e,
        cstr_at (w_heap w) (input_path (params c)) = Some inp ∧
        Fs.is_directory (w_fs w) inp = Fails e)) ∧
    (∀ inp dir,
       cstr_at (w_heap w) (input_path (params c)) = Some inp →
       Fs.is_directory (w_fs w) inp = Yields dir →
       code = GGUF_ERROR_CONVERSION_FAILED → p = (3 # 10)%Q).
Proof.
  intros Hc E.
  destruct (convert_outcome w h c code w' Hc E) as (p & st & Hx & _ & R).
  exists p. split.
  - unfold gguf_get_progress, ctx_get, bind, ret. rewrite Hx.
    by rewrite lookup_insert_eq.
  - inversion R; subst; split_and!; intros; try done; try (by left);
      try (right; split; [done|]; eauto); congruence.
Qed.

Lemma convert_progress_by_code_witness :
  ∃ p,
    gguf_get_progress (Some 1%positive)
      (gguf_convert (Some 1%positive) (job_world "x.pt" "f16")).2
    = (Returns p,
       (gguf_convert (Some 1%positive) (job_world "x.pt" "f16")).2) ∧
    (GGUF_ERROR_INVALID_FORMAT = GGUF_ERROR_INVALID_FORMAT →
     p = (1 # 10)%Q).
Proof.
  destruct (convert_progress_by_code (job_world "x.pt" "f16") 1%positive
              (job false) GGUF_ERROR_INVALID_FORMAT
              (gguf_convert (Some 1%positive) (job_world "x.pt" "f16")).2)
    as (p & Hp & _ & _ & _ & H & _).
  - reflexivity.
  - vm_compute. reflexivity.
  - exists p. split; [exact Hp | exact H].
Defined.

(** On an input below a directory that may not be searched the conversion
    stops at 0.1, the backend initialised and freed. *)
Example convert_on_sealed_input :
  let r := gguf_convert (Some 1%positive)
             (job_world "sealed/model.bin" "f16") in
  r.1 = Returns GGUF_ERROR_CONVERSION_FAILED ∧
  gguf_get_progress (Some 1%positive) r.2 = (Returns (1 # 10)%Q, r.2) ∧
  g_last_error r.2
    = "Conversion error: filesystem error: status: Permission denied [sealed/model.bin]" ∧
  backend_calls (job_world "sealed/model.bin" "f16") r.2
    = [LlamaBackendInit; LlamaBackendFree].
Proof. by_evaluation. Qed.

(** X3: [gguf_convert] returns one of five codes only; a successful run
    leaves the last-error string as it found it (a stale message is not
    cleared), and every other run returns a negative code and leaves a
    non-empty message. *)
Theorem convert_codes_and_errors w h c code w' :
  w_ctxs w !! h = Some c →
  gguf_convert (Some h) w = (Returns code, w') →
  code ∈ [ GGUF_SUCCESS; GGUF_ERROR_INVALID_FORMAT;
           GGUF_ERROR_CONVERSION_FAILED; GGUF_ERROR_CANCELLED;
           GGUF_ERROR_INVALID_QUANTIZATION ] ∧
  (code = GGUF_SUCCESS → g_last_error w' = g_last_error w) ∧
  (code ≠ GGUF_SUCCESS → code < 0 ∧ g_last_error w' ≠ EmptyString).
Proof.
  intros Hc E.
  destruct (convert_outcome w h c code w' Hc E) as (p & st & _ & _ & R).
  inversion R; subst; split_and!;
    try (intros; done);
    try (intros _; split; [done | first [ apply append_nonempty | done ]]);
    apply (bool_decide_unpack _); vm_compute; exact I.
Qed.

Lemma convert_codes_and_errors_witness :
  g_last_error
    (gguf_convert (Some 1%positive)
       (with_last_error "stale" (job_world "m.gguf" "f16"))).2
  = "stale".
Proof.
  destruct (convert_codes_and_errors
              (with_last_error "stale" (job_world "m.gguf" "f16"))
              1%positive (job false) GGUF_SUCCESS
              (gguf_convert (Some 1%positive)
                 (with_last_error "stale" (job_world "m.gguf" "f16"))).2)
    as (_ & H & _).
  - reflexivity.
  - vm_compute. reflexivity.
  - exact (H eq_refl).
Defined.

(** X4: the backend runtime is balanced: a [gguf_convert] that returns has
    either not entered the backend at all, or has called
    [llama_backend_init] first, [llama_backend_free] last, and between
    them at most one of the external script and the quantizer, on the
    error paths as on success. *)
Theorem backend_balanced w h c code w' :
  w_ctxs w !! h = Some c →
  gguf_convert (Some h) w = (Returns code, w') →
  backend_calls w w' = [] ∨
  ∃ mid,
    backend_calls w w' = LlamaBackendInit :: (mid ++ [LlamaBackendFree]) ∧
    (length mid ≤ 1)%nat ∧
    (LlamaBackendInit ∉ mid) ∧ (LlamaBackendFree ∉ mid).
Proof.
  intros Hc E.
  destruct (convert_outcome w h c code w' Hc E) as (p & st & _ & _ & R).
  inversion R; subst;
    first [ by left
          | right; exists []; split_and!; [reflexivity | cbn; lia | ..];
            by intros ?%elem_of_nil
          | right; eexists [_]; split_and!; [reflexivity | cbn; lia | ..];
            intros Hin%list_elem_of_singleton; discriminate Hin ].
Qed.

Lemma backend_balanced_witness :
  backend_calls (job_world "m.gguf" "f16")
    (gguf_convert (Some 1%positive) (job_world "m.gguf" "f16")).2 = [] ∨
  ∃ mid,
    backend_calls (job_world "m.gguf" "f16")
      (gguf_convert (Some 1%positive) (job_world "m.gguf" "f16")).2
    = LlamaBackendInit :: (mid ++ [LlamaBackendFree]) ∧
    (length mid ≤ 1)%nat ∧
    (LlamaBackendInit ∉ mid) ∧ (LlamaBackendFree ∉ mid).
Proof.
  apply (backend_balanced (job_world "m.gguf" "f16") 1%positive (job false)
           GGUF_SUCCESS).
  - reflexivity.
  - vm_compute. reflexivity.
Defined.

(** ** Converting again *)

Lemma set_progress_overwrites w h c p st p0 st0 :
  w_ctxs w !! h = Some c →
  set_progress h p0 (Some st0)
    (with_ctxs (<[h := with_progress p st c]> (w_ctxs w)) w)
  = set_progress h p0 (Some st0) w.
Proof.
  intros Hc. unfold set_progress, ctx_get, modify, emit, ret, bind.
  cbn. rewrite lookup_insert_eq, Hc. cbn. rewrite insert_insert_eq.
  destruct (progress_cb (params c)); reflexivity.
Qed.

(** X5: [gguf_convert] looks at neither the progress nor the stage label
    of its context: a context that has been converted before, whatever
    that run left there, is converted again exactly as if it were
    fresh. *)
Theorem convert_ignores_progress w h c p st :
  w_ctxs w !! h = Some c →
  gguf_convert (Some h)
    (with_ctxs (<[h := with_progress p st c]> (w_ctxs w)) w)
  = gguf_convert (Some h) w.
Proof.
  intros Hc. unfold gguf_convert, try_catch. unfold bind at 1 7.
  by rewrite (set_progress_overwrites w h c p st _ _ Hc).
Qed.

Lemma convert_ignores_progress_witness :
  gguf_convert (Some 1%positive)
    (with_ctxs (<[1%positive := with_progress 1 "Complete" (job false)]>
                  (w_ctxs (job_world "m.gguf" "f16")))
       (job_world "m.gguf" "f16"))
  = gguf_convert (Some 1%positive) (job_world "m.gguf" "f16").
Proof.
  apply (convert_ignores_progress (job_world "m.gguf" "f16") 1%positive
           (job false)).
  reflexivity.
Defined.

(** ** Rules of the triples *)

Lemma triple_ret {A} (P : world → Prop) (a : A) Q E :
  (∀ w, P w → Q a w) → triple P (ret a) Q E.
Proof. intros H w Hp. by apply H. Qed.

Lemma triple_bind {A B} P (m : M A) (k : A → M B) Q R E :
  triple P m Q E → (∀ a, triple (Q a) (k a) R E) →
  triple P (bind m k) R E.
Proof.
  intros Hm Hk w Hp. unfold bind. specialize (Hm w Hp).
  destruct (m w) as [[a|e|] w1]; try done. by apply Hk.
Qed.

(** What the body throws is handled if it is a [std::exception] and
    passes through if not. *)
Lemma triple_try_catch {A} P (body : M A) handler Q E E' :
  triple P body Q E → (∀ e, triple E (handler e) Q E') →
  (∀ w, E w → E' w) →
  triple P (try_catch body handler) Q E'.
Proof.
  intros Hm Hk HE w Hp. unfold try_catch. specialize (Hm w Hp).
  destruct (body w) as [[a|e|] w1]; try done.
  destruct (is_std_exception e); [by apply Hk | by apply HE].
Qed.

Lemma triple_weaken {A} (P P' : world → Prop) (m : M A) Q Q' E E' :
  triple P' m Q' E' → (∀ w, P w → P' w) →
  (∀ a w, Q' a w → Q a w) → (∀ w, E' w → E w) → triple P m Q E.
Proof.
  intros Hm HP HQ HE w Hp. specialize (Hm w (HP w Hp)).
  destruct (m w) as [[a|e|] w1]; auto.
Qed.

Lemma keeps_ret {A} P (a : A) : keeps P (ret a).
Proof. by apply triple_ret. Qed.

Lemma keeps_bind {A B} P (m : M A) (k : A → M B) :
  keeps P m → (∀ a, keeps P (k a)) → keeps P (bind m k).
Proof. intros Hm Hk. eapply triple_bind; [exact Hm | exact Hk]. Qed.

Lemma keeps_try_catch {A} P (body : M A) handler :
  keeps P body → (∀ e, keeps P (handler e)) →
  keeps P (try_catch body handler).
Proof. intros Hm Hk. eapply triple_try_catch; [exact Hm | exact Hk | done]. Qed.

(** An operation that only looks at the world keeps every invariant. *)
Lemma keeps_reader {A} P (f : world → outcome A) : keeps P (λ w, (f w, w)).
Proof. intros w Hp. by destruct (f w). Qed.

Lemma keeps_modify P (f : world → world) :
  (∀ w, P w → P (f w)) → keeps P (modify f).
Proof. intros Hf w Hp. by apply Hf. Qed.

Lemma keeps_read_cstr P p : keeps P (read_cstr p).
Proof. intros w Hp. unfold read_cstr. by destruct (cstr_at _ _). Qed.

Lemma keeps_ctx_get P h : keeps P (ctx_get h).
Proof. intros w Hp. unfold ctx_get. by destruct (_ !! _). Qed.

Lemma keeps_get {A} P (f : world → A) : keeps P (get f).
Proof. intros w Hp. exact Hp. Qed.

Lemma keeps_ask {A} P (r : answer A) : keeps P (ask r).
Proof. intros w Hp. unfold ask. by destruct r. Qed.

Lemma keeps_when P b m : keeps P m → keeps P (when b m).
Proof. destruct b; [done | intros _; apply keeps_ret]. Qed.

(** ** Invariants that only concern the contexts *)

Section ctxs_invariant.
Variable P : world → Prop.
Hypothesis P_ctxs : ∀ w w', w_ctxs w' = w_ctxs w → P w → P w'.

Lemma keeps_set_error msg : keeps P (set_error msg).
Proof. apply keeps_modify. intros w. by apply P_ctxs. Qed.

Lemma keeps_emit e : keeps P (emit e).
Proof. apply keeps_modify. intros w. by apply P_ctxs. Qed.

Lemma keeps_log h level msg : keeps P (log h level msg).
Proof.
  unfold log. apply keeps_bind; [apply keeps_ctx_get|]. intros c.
  destruct (log_cb (params c)); [apply keeps_emit | apply keeps_ret].
Qed.

Lemma keeps_dup_field p : keeps P (dup_field p).
Proof.
  unfold dup_field. destruct (is_null p); [apply keeps_ret|].
  unfold strdup. apply keeps_bind; [apply keeps_read_cstr|]. intros s.
  intros w. by apply P_ctxs.
Qed.

Lemma keeps_free_field p : keeps P (free_field p).
Proof.
  unfold free_field. destruct (is_null p); [apply keeps_ret|].
  intros w Hp. unfold free. destruct p as [| |a]; try done.
  destruct (w_heap w !! a); [|done]. revert Hp. by apply P_ctxs.
Qed.

Lemma keeps_read_info p : keeps P (read_info p).
Proof.
  intros w Hp. unfold read_info. destruct p as [| |a]; try done.
  by destruct (w_heap w !! a) as [[]|].
Qed.

Lemma keeps_write_info p i : keeps P (write_info p i).
Proof.
  unfold write_info. apply keeps_bind; [apply keeps_read_info|]. intros _.
  destruct p; try (intros w Hp; exact I).
  apply keeps_modify. intros w. by apply P_ctxs.
Qed.

Lemma keeps_modify_info p f : keeps P (modify_info p f).
Proof.
  unfold modify_info. apply keeps_bind; [apply keeps_read_info|].
  intros i. apply keeps_write_info.
Qed.

Lemma keeps_file_size p : keeps P (file_size p).
Proof.
  unfold file_size. apply keeps_bind; [apply keeps_get|]. intros fs.
  apply keeps_ask.
Qed.

Lemma keeps_system cmd : keeps P (system cmd).
Proof.
  unfold system. apply keeps_bind; [apply keeps_emit|]. intros _.
  intros w Hp. destruct (run_system _ _ _) as [r fs'].
  revert Hp. by apply P_ctxs.
Qed.

Lemma keeps_llama_model_quantize inp out ftype nthread :
  keeps P (llama_model_quantize inp out ftype nthread).
Proof.
  unfold llama_model_quantize. apply keeps_bind; [apply keeps_emit|].
  intros _ w Hp. destruct (run_quantize _ _ _ _ _ _) as [[code|e] fs'];
    revert Hp; by apply P_ctxs.
Qed.

Lemma keeps_stoul s : keeps P (stoul s).
Proof.
  intros w Hp. unfold stoul.
  destruct (skip_space (Str.c_str s)) as [|[[] [] [] [] [] [] [] []] ?];
    cbv zeta beta iota;
    match goal with
    | |- context [digits ?x] => destruct (digits x)
    end;
    try exact Hp;
    match goal with
    | |- context [ULONG_MAX <? ?v] => destruct (ULONG_MAX <? v)
    end; exact Hp.
Qed.

Lemma keeps_store_u32 info set v : keeps P (store_u32 info set v).
Proof.
  unfold store_u32. apply keeps_bind; [apply keeps_stoul|].
  intros n. apply keeps_modify_info.
Qed.

Lemma keeps_if_key config k f :
  (∀ v, keeps P (f v)) → keeps P (if_key config k f).
Proof.
  intros Hf. unfold if_key. destruct (config !! k); [apply Hf|].
  apply keeps_ret.
Qed.

Lemma keeps_total_size entries total : keeps P (total_size entries total).
Proof.
  revert total. induction entries as [|entry rest IH]; intros total; cbn.
  - apply keeps_ret.
  - apply keeps_bind; [apply keeps_get|]. intros fs.
    apply keeps_bind; [apply keeps_ask|]. intros regular.
    apply keeps_bind.
    { destruct regular; [|apply keeps_ret].
      apply keeps_bind; [apply keeps_file_size|]. intros n.
      apply keeps_ret. }
    intros total'.
    apply keeps_bind; [apply keeps_ask|]. intros _. apply IH.
Qed.

Lemma keeps_extract_model_info path info :
  keeps P (extract_model_info path info).
Proof.
  unfold extract_model_info. apply keeps_bind; [apply keeps_get|].
  intros fs.
  apply keeps_bind; [apply keeps_ask|]. intros dir.
  apply keeps_bind; [apply keeps_ask|]. intros found.
  cbv zeta. destruct (negb _); [apply keeps_ret|].
  destruct (Fs.open_read _ _) as [content|]; [|apply keeps_ret].
  repeat (apply keeps_bind; [|intros _]);
    try apply keeps_ret;
    apply keeps_if_key; intros v;
    first [ apply keeps_modify_info | apply keeps_store_u32 ].
Qed.

Lemma keeps_validate_input ctx info :
  keeps P (gguf_validate_input ctx info).
Proof.
  unfold gguf_validate_input. destruct ctx as [h|].
  2:{ apply keeps_bind; [apply keeps_set_error|].
      intros _. apply keeps_ret. }
  apply keeps_bind; [apply keeps_ctx_get|]. intros c.
  apply keeps_bind; [apply keeps_read_cstr|]. intros inp.
  apply keeps_bind; [apply keeps_get|]. intros fs.
  apply keeps_bind; [apply keeps_ask|]. intros format.
  destruct (Str.eqb _ _).
  { apply keeps_bind; [apply keeps_set_error|].
    intros _. apply keeps_ret. }
  apply keeps_bind; [apply keeps_log|]. intros _.
  apply keeps_bind; [|intros _; apply keeps_ret].
  destruct (is_null info); [apply keeps_ret|].
  apply keeps_bind; [apply keeps_write_info|]. intros _.
  apply keeps_bind; [apply keeps_extract_model_info|]. intros ok.
  apply keeps_bind; [apply keeps_when, keeps_log|]. intros _.
  apply keeps_try_catch; [|intros e; apply keeps_log].
  apply keeps_bind; [apply keeps_ask|]. intros dir.
  destruct dir.
  - apply keeps_bind; [apply keeps_ask|]. intros entries.
    apply keeps_bind; [apply keeps_total_size|]. intros total.
    apply keeps_modify_info.
  - apply keeps_bind; [apply keeps_file_size|]. intros n.
    apply keeps_modify_info.
Qed.

Lemma keeps_is_cancelled ctx : keeps P (gguf_is_cancelled ctx).
Proof.
  unfold gguf_is_cancelled. destruct ctx; [|apply keeps_ret].
  apply keeps_bind; [apply keeps_ctx_get|]. intros ?. apply keeps_ret.
Qed.

Lemma keeps_get_progress ctx : keeps P (gguf_get_progress ctx).
Proof.
  unfold gguf_get_progress. destruct ctx; [|apply keeps_ret].
  apply keeps_bind; [apply keeps_ctx_get|]. intros ?. apply keeps_ret.
Qed.

Lemma keeps_detect_format path : keeps P (gguf_detect_format path).
Proof.
  unfold gguf_detect_format.
  destruct (is_null _); [apply keeps_ret|].
  apply keeps_bind; [apply keeps_read_cstr|]. intros ?.
  apply keeps_bind; [apply keeps_get|]. intros ?.
  apply keeps_bind; [apply keeps_ask|]. intros ?.
  apply keeps_bind; [apply keeps_modify; intros ?; by apply P_ctxs|].
  intros _. apply keeps_bind; [apply keeps_get|]. intros ?.
  apply keeps_ret.
Qed.

Lemma keeps_verify_file path info : keeps P (gguf_verify_file path info).
Proof.
  unfold gguf_verify_file.
  destruct (is_null _).
  { apply keeps_bind; [apply keeps_set_error|].
    intros _. apply keeps_ret. }
  apply keeps_bind; [apply keeps_read_cstr|]. intros ?.
  apply keeps_bind; [apply keeps_get|]. intros fs.
  apply keeps_bind; [apply keeps_ask|]. intros found.
  destruct (negb _).
  { apply keeps_bind; [apply keeps_set_error|].
    intros _. apply keeps_ret. }
  destruct (Fs.open_read _ _).
  2:{ apply keeps_bind; [apply keeps_set_error|].
      intros _. apply keeps_ret. }
  cbv zeta. destruct (strncmp_differs _ _ _) as [[]|].
  - apply keeps_bind; [apply keeps_set_error|].
    intros _. apply keeps_ret.
  - apply keeps_bind; [|intros _; apply keeps_ret].
    destruct (is_null _); [apply keeps_ret|].
    apply keeps_bind; [apply keeps_write_info|]. intros _.
    apply keeps_bind; [apply keeps_file_size|]. intros n.
    apply keeps_bind; [apply keeps_modify_info|]. intros _.
    apply keeps_modify_info.
  - intros ? ?. exact I.
Qed.

End ctxs_invariant.

(** ** Invariants of one context *)

Lemma keeps_settle {A} P (m : M A) w w' :
  keeps P m → P w → settle (m w) = Some w' → P w'.
Proof.
  intros Hm Hp. specialize (Hm w Hp). unfold settle.
  destruct (m w) as [[a|e|] w1]; cbn; intros [= <-]; done.
Qed.

Lemma holds_at_ctxs h φ w w' :
  w_ctxs w' = w_ctxs w → holds_at h φ w → holds_at h φ w'.
Proof. intros E (c & Hc & Hx). exists c. by rewrite E. Qed.

(** What [φ] says of context [h] survives every call but the one that
    frees [h], provided a new progress value, a new stage label and a
    raised cancellation flag do not break it. *)
Section context_invariant.
Variable h : positive.
Variable φ : gguf_conversion_ctx → Prop.
Hypothesis φ_progress : ∀ c p st,
  φ c → φ {| params := params c; progress := p; cancelled := cancelled c;
             current_stage := st |}.
Hypothesis φ_cancel : ∀ c,
  φ c → φ {| params := params c; progress := progress c; cancelled := true;
             current_stage := current_stage c |}.

Lemma keeps_at_ctx_modify k f :
  (∀ c, φ c → φ (f c)) → keeps (holds_at h φ) (ctx_modify k f).
Proof.
  intros Hf w (c & Hc & Hx). unfold ctx_modify, ctx_get, modify, bind.
  destruct (w_ctxs w !! k) as [ck|] eqn:Ek; [|done]. cbn.
  destruct (decide (k = h)) as [->|Hne].
  - exists (f ck). cbn. rewrite lookup_insert_eq. split; [done|].
    apply Hf. congruence.
  - exists c. cbn. by rewrite lookup_insert_ne.
Qed.

Lemma keeps_at_set_progress k p st :
  keeps (holds_at h φ) (set_progress k p st).
Proof.
  intros w (c & Hc & Hx). unfold set_progress, ctx_get, modify, emit, ret, bind.
  destruct (w_ctxs w !! k) as [ck|] eqn:Ek; [|done]. cbn.
  assert (holds_at h φ
            (with_ctxs (<[k := {| params := params ck; progress := p;
                                  cancelled := cancelled ck;
                                  current_stage :=
                                    default (current_stage ck) st |}]>
                          (w_ctxs w)) w)) as (c' & Hc' & Hx').
  { destruct (decide (k = h)) as [->|Hne].
    - eexists. cbn. rewrite lookup_insert_eq. split; [done|].
      apply φ_progress. congruence.
    - exists c. cbn. by rewrite lookup_insert_ne. }
  destruct (progress_cb (params ck)); exists c'; by split.
Qed.

(** The handle of a new context is none of the live ones. *)
Lemma triple_at_ctx_new p :
  triple (holds_at h φ) (ctx_new p)
    (λ k w, holds_at h φ w ∧ k ≠ h) (holds_at h φ).
Proof.
  intros w (c & Hc & Hx). unfold ctx_new. cbn.
  assert (fresh (dom (w_ctxs w)) ≠ h) as Hne.
  { intros E. pose proof (is_fresh (dom (w_ctxs w))) as Hf.
    rewrite E in Hf. apply Hf. by apply elem_of_dom_2 with c. }
  split; [|done]. exists c. split; [|done].
  cbn. by rewrite lookup_insert_ne.
Qed.

Lemma keeps_at_create arg :
  keeps (holds_at h φ) (gguf_create_context arg).
Proof.
  pose proof (holds_at_ctxs h φ) as HP.
  unfold gguf_create_context. destruct arg as [p|].
  2:{ apply keeps_bind; [by apply keeps_set_error|].
      intros _. apply keeps_ret. }
  destruct (_ || _).
  { apply keeps_bind; [by apply keeps_set_error|].
    intros _. apply keeps_ret. }
  apply keeps_bind; [apply keeps_read_cstr|]. intros inp.
  apply keeps_bind; [apply keeps_get|]. intros fs.
  apply keeps_bind; [apply keeps_ask|]. intros found.
  destruct (negb _).
  { apply keeps_bind; [by apply keeps_set_error|].
    intros _. apply keeps_ret. }
  eapply triple_bind; [apply triple_at_ctx_new|]. intros k.
  apply (triple_weaken _ (λ w, holds_at h φ w ∧ k ≠ h) _ _
           (λ _ w, holds_at h φ w ∧ k ≠ h) _ (λ w, holds_at h φ w ∧ k ≠ h));
    [|done|by intros ? ? []|by intros ? []].
  assert (∀ w w', w_ctxs w' = w_ctxs w →
            holds_at h φ w ∧ k ≠ h → holds_at h φ w' ∧ k ≠ h) as HP'.
  { intros w w' E [H1 H2]. split; [by eapply HP|done]. }
  do 5 (apply keeps_bind; [by apply keeps_dup_field|]; intros ?).
  apply keeps_bind.
  { intros w [(c & Hc & Hx) Hne]. unfold ctx_modify, ctx_get, modify, bind.
    destruct (w_ctxs w !! k) as [ck|] eqn:Ek; [|done]. cbn.
    split; [|done]. exists c. cbn. by rewrite lookup_insert_ne. }
  intros _.
  apply keeps_bind; [apply keeps_read_cstr|]. intros out.
  apply keeps_bind; [by apply keeps_log|]. intros _. apply keeps_ret.
Qed.

Lemma keeps_at_free k :
  k ≠ Some h → keeps (holds_at h φ) (gguf_free_context k).
Proof.
  pose proof (holds_at_ctxs h φ) as HP.
  intros Hk. unfold gguf_free_context. destruct k as [k|];
    [|apply keeps_ret].
  apply keeps_bind; [apply keeps_ctx_get|]. intros c.
  do 5 (apply keeps_bind; [by apply keeps_free_field|]; intros _).
  apply keeps_modify. intros w (c0 & Hc & Hx). exists c0. cbn.
  rewrite lookup_delete_ne; [done|]. congruence.
Qed.

Lemma keeps_at_cancel k : keeps (holds_at h φ) (gguf_cancel k).
Proof.
  pose proof (holds_at_ctxs h φ) as HP.
  unfold gguf_cancel. destruct k as [k|]; [|apply keeps_ret].
  apply keeps_bind; [|intros _; by apply keeps_log].
  by apply keeps_at_ctx_modify.
Qed.

Lemma keeps_at_convert k : keeps (holds_at h φ) (gguf_convert k).
Proof.
  pose proof (holds_at_ctxs h φ) as HP.
  unfold gguf_convert. destruct k as [k|].
  2:{ apply keeps_bind; [by apply keeps_set_error|].
      intros _. apply keeps_ret. }
  apply keeps_try_catch.
  2:{ intros e. apply keeps_bind; [by apply keeps_set_error|]. intros _.
      apply keeps_bind; [apply keeps_get|]. intros err.
      apply keeps_bind; [by apply keeps_log|]. intros _.
      apply keeps_bind; [by apply keeps_emit|]. intros _. apply keeps_ret. }
  apply keeps_bind; [apply keeps_at_set_progress|]. intros _.
  apply keeps_bind; [by apply keeps_log|]. intros _.
  apply keeps_bind; [apply keeps_ctx_get|]. intros c.
  destruct (cancelled c).
  { apply keeps_bind; [by apply keeps_set_error|].
    intros _. apply keeps_ret. }
  apply keeps_bind; [apply keeps_read_cstr|]. intros q.
  destruct (negb _).
  { apply keeps_bind; [by apply keeps_set_error|].
    intros _. apply keeps_ret. }
  apply keeps_bind; [apply keeps_at_set_progress|]. intros _.
  apply keeps_bind; [by apply keeps_emit|]. intros _.
  do 3 (apply keeps_bind; [apply keeps_read_cstr|]; intros ?).
  apply keeps_bind; [apply keeps_get|]. intros fs.
  apply keeps_bind; [apply keeps_ask|]. intros dir.
  apply keeps_bind.
  - destruct (_ || _); [|destruct (Str.eqb _ _)].
    + unfold convert_hf.
      apply keeps_bind; [apply keeps_at_set_progress|]. intros _.
      apply keeps_bind; [apply keeps_ctx_get|]. intros c1.
      apply keeps_bind; [apply keeps_get|]. intros script_dir.
      apply keeps_bind.
      { destruct (is_null _); [apply keeps_ret|].
        apply keeps_bind; [apply keeps_read_cstr|]. intros s.
        apply keeps_ret. }
      intros mt.
      apply keeps_bind; [apply keeps_at_set_progress|]. intros _.
      apply keeps_bind; [by apply keeps_log|]. intros _.
      apply keeps_bind; [by apply keeps_system|]. intros result.
      destruct (bool_decide _); [|apply keeps_ret].
      apply keeps_bind; [by apply keeps_set_error|]. intros _.
      apply keeps_bind; [by apply keeps_emit|]. intros _. apply keeps_ret.
    + unfold convert_gguf.
      apply keeps_bind; [apply keeps_at_set_progress|]. intros _.
      apply keeps_bind; [apply keeps_ctx_get|]. intros c1.
      apply keeps_bind; [apply keeps_at_set_progress|]. intros _.
      apply keeps_bind; [by apply keeps_llama_model_quantize|]. intros r.
      cbv zeta. destruct (bool_decide _); [|apply keeps_ret].
      apply keeps_bind; [by apply keeps_set_error|]. intros _.
      apply keeps_bind; [by apply keeps_emit|]. intros _. apply keeps_ret.
    + unfold convert_unsupported.
      apply keeps_bind; [by apply keeps_set_error|]. intros _.
      apply keeps_bind; [by apply keeps_emit|]. intros _. apply keeps_ret.
  - intros [code|]; [apply keeps_ret|].
    apply keeps_bind; [apply keeps_at_set_progress|]. intros _.
    apply keeps_bind; [by apply keeps_log|]. intros _.
    apply keeps_bind; [by apply keeps_emit|]. intros _. apply keeps_ret.
Qed.

Lemma run_call_keeps_at c w w' :
  holds_at h φ w → c ≠ CallFree (Some h) →
  run_call c w = Some w' → holds_at h φ w'.
Proof.
  pose proof (holds_at_ctxs h φ) as HP.
  intros Hp Hc. destruct c; cbn [run_call];
    apply (keeps_settle (holds_at h φ) _ w w'); try exact Hp.
  - apply keeps_at_create.
  - by apply keeps_validate_input.
  - apply keeps_at_convert.
  - apply keeps_at_cancel.
  - by apply keeps_is_cancelled.
  - by apply keeps_get_progress.
  - apply keeps_at_free. congruence.
  - by apply keeps_detect_format.
  - by apply keeps_verify_file.
  - apply keeps_get.
  - apply keeps_modify. intros ?. by apply HP.
Qed.

Lemma run_calls_keep_at cs w w' :
  holds_at h φ w → CallFree (Some h) ∉ cs →
  run_calls cs w = Some w' → holds_at h φ w'.
Proof.
  revert w. induction cs as [|c cs IH]; intros w Hp Hn; cbn.
  - by intros [= <-].
  - destruct (run_call c w) as [w1|] eqn:E; [|done].
    apply IH.
    + eapply run_call_keeps_at; [exact Hp| |exact E].
      intros ->. apply Hn. by left.
    + intros Hin. apply Hn. by right.
Qed.

End context_invariant.

(** X6: cancellation is monotonic. Once a context is cancelled, no call of
    the API other than freeing that very context resets the flag: after
    any sequence of such calls, each with defined behaviour,
    [gguf_is_cancelled] still returns 1. *)
Theorem cancellation_is_monotonic h cs w w' :
  cancelled_at h w → CallFree (Some h) ∉ cs →
  run_calls cs w = Some w' →
  gguf_is_cancelled (Some h) w' = (Returns 1, w').
Proof.
  intros Hp Hn Hr.
  assert (holds_at h (λ c, cancelled c = true) w') as (c & Hc & Hx).
  { eapply run_calls_keep_at; [| |exact Hp|exact Hn|exact Hr]; done. }
  unfold gguf_is_cancelled, ctx_get, bind, ret. by rewrite Hc, Hx.
Qed.

Lemma cancellation_is_monotonic_witness :
  ∃ w',
    run_calls busy_client
      (gguf_cancel (Some 1%positive) (job_world "m.gguf" "f16")).2
    = Some w' ∧
    gguf_is_cancelled (Some 1%positive) w' = (Returns 1, w').
Proof.
  eexists. split.
  - vm_compute. reflexivity.
  - apply (cancellation_is_monotonic 1%positive busy_client
             (gguf_cancel (Some 1%positive) (job_world "m.gguf" "f16")).2).
    + eexists. split; vm_compute; reflexivity.
    + unfold busy_client. intros H.
      repeat (apply elem_of_cons in H as [H|H]; [discriminate H|]).
      by apply elem_of_nil in H.
    + vm_compute. reflexivity.
Defined.

(** X7: the parameters of a context are fixed at its creation. Whatever
    the client calls afterwards, short of freeing that very context, the
    handle stays live and the context keeps the pointers and settings it
    was created with; only its progress, stage label and cancellation flag
    ever change. *)
Theorem params_are_fixed h p cs w w' :
  holds_at h (λ c, params c = p) w → CallFree (Some h) ∉ cs →
  run_calls cs w = Some w' →
  ∃ c', w_ctxs w' !! h = Some c' ∧ params c' = p.
Proof.
  intros Hp Hn Hr.
  eapply (run_calls_keep_at h (λ c, params c = p)); [| |exact Hp|exact Hn|exact Hr];
    done.
Qed.

Lemma params_are_fixed_witness :
  ∃ w',
    run_calls (CallCancel (Some 1%positive) :: busy_client)
      (job_world "m.gguf" "f16") = Some w' ∧
    ∃ c', w_ctxs w' !! 1%positive = Some c' ∧ params c' = params (job false).
Proof.
  eexists. split.
  - vm_compute. reflexivity.
  - apply (params_are_fixed 1%positive (params (job false))
             (CallCancel (Some 1%positive) :: busy_client)
             (job_world "m.gguf" "f16")).
    + eexists. split; vm_compute; reflexivity.
    + unfold busy_client. intros H.
      repeat (apply elem_of_cons in H as [H|H]; [discriminate H|]).
      by apply elem_of_nil in H.
    + vm_compute. reflexivity.
Defined.

(** ** Creating and freeing *)

Lemma dup_field_cells hp0 p w N :
  w_heap w = N ∪ hp0 → N ##ₘ hp0 → readable (w_heap w) p →
  ∃ p' N',
    dup_field p w = (Returns p', with_heap (N' ∪ hp0) w) ∧
    N' ##ₘ hp0 ∧
    dom N' = ptr_cells p' ∪ dom N ∧ ptr_cells p' ## dom N ∧
    (∀ s, p' ≠ Static s).
Proof.
  intros Hw Hd [->|[s Hs]].
  - exists NULL, N. split_and!; try done.
    all: cbn; rewrite <- ?Hw, ?(left_id_L ∅ (∪)).
    all: first [ by destruct w | done | apply disjoint_empty_l ].
  - destruct (strdup_spec p s w Hs) as [E Hf]. cbn zeta in E, Hf.
    set (a := fresh (dom (w_heap w))) in *. clearbody a.
    rewrite Hw in Hf. apply lookup_union_None in Hf as [HfN Hf0].
    exists (Heap a), (<[a := CStr s]> N). split_and!; try done.
    + unfold dup_field. rewrite <- insert_union_l, <- Hw.
      destruct p; [discriminate Hs| |]; exact E.
    + by apply map_disjoint_insert_l_2.
    + cbn. by rewrite dom_insert_L.
    + cbn. apply disjoint_singleton_l. by apply not_elem_of_dom.
Qed.

Lemma free_field_cells hp0 p' w R :
  w_heap w = R ∪ hp0 → R ##ₘ hp0 →
  ptr_cells p' ⊆ dom R → (∀ s, p' ≠ Static s) →
  ∃ R',
    free_field p' w = (Returns tt, with_heap (R' ∪ hp0) w) ∧
    R' ##ₘ hp0 ∧ dom R' = dom R ∖ ptr_cells p'.
Proof.
  intros Hw Hd Hin Hst. destruct p' as [|s|a].
  - exists R. split_and!; try done.
    + cbn. rewrite <- Hw. by destruct w.
    + cbn. by rewrite difference_empty_L.
  - by destruct (Hst s).
  - cbn in Hin. apply singleton_subseteq_l, elem_of_dom in Hin as [c Hc].
    assert (hp0 !! a = None) as H0 by (by eapply map_disjoint_Some_l).
    exists (delete a R). split_and!.
    + unfold free_field, free. cbn. rewrite Hw.
      rewrite (lookup_union_Some_l _ _ _ _ Hc).
      by rewrite delete_union, (delete_id hp0).
    + by apply map_disjoint_delete_l.
    + cbn. by rewrite dom_delete_L.
Qed.

Lemma owned_cells_partition (C1 C2 C3 C4 C5 A1 A2 A3 A4 A5 : gset positive) :
  A1 = C1 → A2 = C2 ∪ A1 → A3 = C3 ∪ A2 → A4 = C4 ∪ A3 →
  A5 = C5 ∪ A4 →
  C2 ## A1 → C3 ## A2 → C4 ## A3 → C5 ## A4 →
  C1 ⊆ A5 ∧ C2 ⊆ A5 ∖ C1 ∧ C3 ⊆ A5 ∖ C1 ∖ C2 ∧
  C4 ⊆ A5 ∖ C1 ∖ C2 ∖ C3 ∧ C5 ⊆ A5 ∖ C1 ∖ C2 ∖ C3 ∖ C4 ∧
  A5 ∖ C1 ∖ C2 ∖ C3 ∖ C4 ∖ C5 = ∅.
Proof.
  intros -> -> -> -> ->. rewrite !disjoint_union_r.
  intros J2 [J3 J3'] (J4 & J4' & J4'') (J5 & J5' & J5'' & J5''').
  split_and!; try apply set_eq; intros x; rewrite ?elem_of_difference, ?elem_of_union, ?elem_of_empty;
    specialize (J2 x); specialize (J3 x); specialize (J3' x); specialize (J4 x);
    specialize (J4' x); specialize (J4'' x); specialize (J5 x); specialize (J5' x);
    specialize (J5'' x); specialize (J5''' x); tauto.
Qed.

Lemma readable_union hp0 N p :
  N ##ₘ hp0 → readable hp0 p → readable (N ∪ hp0) p.
Proof. intros Hd. apply readable_mono. by apply map_union_subseteq_r. Qed.

(** X8: creating a context and freeing it is a round trip. With readable
    parameters and an existing input, [gguf_create_context] followed by
    [gguf_free_context] returns the store and the table of contexts to
    what they were: every string the context owned is released, nothing of
    the caller's is, and the handle is dead. *)
Theorem create_then_free_restores w p inp out :
  params_readable (w_heap w) p →
  cstr_at (w_heap w) (input_path p) = Some inp →
  cstr_at (w_heap w) (output_path p) = Some out →
  Fs.exists_ (w_fs w) inp = Yields true →
  ∃ h w1 w2,
    gguf_create_context (Some p) w = (Returns (Some h), w1) ∧
    gguf_free_context (Some h) w1 = (Returns tt, w2) ∧
    w_heap w2 = w_heap w ∧ w_ctxs w2 = w_ctxs w ∧
    w_ctxs w2 !! h = None ∧ w_fs w2 = w_fs w.
Proof.
  intros (Ri & Ro & Rm & Rq & Rv) Hi Ho Hex.
  unfold gguf_create_context.
  assert (is_null (input_path p) || is_null (output_path p) = false) as ->.
  { destruct (input_path p), (output_path p); done. }
  unfold bind at 1. unfold read_cstr at 1. rewrite Hi.
  unfold bind at 1, get at 1. unfold bind at 1, ask at 1. rewrite Hex.
  cbn [negb].
  unfold bind at 1, ctx_new at 1.
  set (h := fresh (dom (w_ctxs w))).
  assert (w_ctxs w !! h = None) as Hh by apply not_elem_of_dom, is_fresh.
  clearbody h. cbv beta iota.
  set (hp0 := w_heap w) in *.
  match goal with |- context [bind _ _ ?W] => set (w0 := W) end.
  assert (w_heap w0 = ∅ ∪ hp0) as Hw0
    by (by rewrite (left_id_L ∅ (∪))).
  assert (∅ ##ₘ hp0) as D0 by apply map_disjoint_empty_l.
  destruct (dup_field_cells hp0 (input_path p) w0 ∅ Hw0 D0)
    as (p1 & N1 & E1 & D1 & S1 & J1 & T1); [by rewrite Hw0, (left_id_L ∅ (∪))|].
  unfold bind at 1. rewrite E1. clear E1. cbv beta iota.
  unfold bind at 1.
  lazymatch goal with |- context [dup_field (output_path p) ?W] =>
    destruct (dup_field_cells hp0 (output_path p) W N1 eq_refl D1)
      as (p2 & N2 & E2 & D2 & S2 & J2 & T2); [by apply readable_union|]
  end.
  rewrite E2. clear E2. cbv beta iota.
  unfold bind at 1.
  lazymatch goal with |- context [dup_field (model_type p) ?W] =>
    destruct (dup_field_cells hp0 (model_type p) W N2 eq_refl D2)
      as (p3 & N3 & E3 & D3 & S3 & J3 & T3); [by apply readable_union|]
  end.
  rewrite E3. clear E3. cbv beta iota.
  unfold bind at 1.
  lazymatch goal with |- context [dup_field (quantization p) ?W] =>
    destruct (dup_field_cells hp0 (quantization p) W N3 eq_refl D3)
      as (p4 & N4 & E4 & D4 & S4 & J4 & T4); [by apply readable_union|]
  end.
  rewrite E4. clear E4. cbv beta iota.
  unfold bind at 1.
  lazymatch goal with |- context [dup_field (vocab_type p) ?W] =>
    destruct (dup_field_cells hp0 (vocab_type p) W N4 eq_refl D4)
      as (p5 & N5 & E5 & D5 & S5 & J5 & T5); [by apply readable_union|]
  end.
  rewrite E5. clear E5. cbv beta iota.
  rewrite dom_empty_L, (right_id_L ∅ (∪)) in S1.
  destruct (owned_cells_partition _ _ _ _ _ _ _ _ _ _
              S1 S2 S3 S4 S5 J2 J3 J4 J5) as (K1 & K2 & K3 & K4 & K5 & K6).
  assert (cstr_at (N5 ∪ hp0) (output_path p) = Some out) as Ho5.
  { eapply cstr_at_mono; [|exact Ho]. by apply map_union_subseteq_r. }
  subst w0.
  unfold ctx_modify, log, ctx_get, read_cstr, modify, emit, ret, bind.
  cbn. rewrite lookup_insert_eq. cbn. rewrite Ho5. cbn.
  rewrite lookup_insert_eq. cbn. rewrite insert_insert_eq.
  destruct (log_cb p) eqn:L; cbn; eexists h, _, _; (split; [reflexivity|]).
  all: unfold gguf_free_context, bind at 1, ctx_get; cbn [w_ctxs];
    rewrite lookup_insert_eq; cbn [params input_path output_path model_type
                                   quantization vocab_type].
  all: match goal with |- context [bind (free_field ?q) _ ?W] =>
         destruct (free_field_cells hp0 q W N5 eq_refl D5)
           as (R1 & F1 & G1 & Q1); [exact K1 | done |]
       end.
  all: unfold bind at 1; rewrite F1; clear F1; cbv beta iota.
  all: match goal with |- context [bind (free_field ?q) _ ?W] =>
         destruct (free_field_cells hp0 q W R1 eq_refl G1)
           as (R2 & F2 & G2 & Q2); [by rewrite Q1 | done |]
       end.
  all: unfold bind at 1; rewrite F2; clear F2; cbv beta iota.
  all: match goal with |- context [bind (free_field ?q) _ ?W] =>
         destruct (free_field_cells hp0 q W R2 eq_refl G2)
           as (R3 & F3 & G3 & Q3); [by rewrite Q2, Q1 | done |]
       end.
  all: unfold bind at 1; rewrite F3; clear F3; cbv beta iota.
  all: match goal with |- context [bind (free_field ?q) _ ?W] =>
         destruct (free_field_cells hp0 q W R3 eq_refl G3)
           as (R4 & F4 & G4 & Q4); [by rewrite Q3, Q2, Q1 | done |]
       end.
  all: unfold bind at 1; rewrite F4; clear F4; cbv beta iota.
  all: match goal with |- context [bind (free_field ?q) _ ?W] =>
         destruct (free_field_cells hp0 q W R4 eq_refl G4)
           as (R5 & F5 & G5 & Q5); [by rewrite Q4, Q3, Q2, Q1 | done |]
       end.
  all: unfold bind at 1; rewrite F5; clear F5; cbv beta iota.
  all: assert (R5 = ∅) as ->
    by (apply dom_empty_inv_L; by rewrite Q5, Q4, Q3, Q2, Q1).
  all: unfold modify; cbn.
  all: (split; [reflexivity|]); cbn.
  all: rewrite (left_id_L ∅ (∪)), delete_insert_id by done.
  all: by rewrite Hh.
Qed.

Lemma create_then_free_restores_witness :
  let w := with_heap {[ 9%positive := CInfo zero_info ]} empty_world in
  ∃ h w1 w2,
    gguf_create_context (Some (sample_params "m.gguf" "out.gguf" "f16")) w
      = (Returns (Some h), w1) ∧
    gguf_free_context (Some h) w1 = (Returns tt, w2) ∧
    w_heap w2 = w_heap w ∧ w_ctxs w2 = w_ctxs w ∧
    w_ctxs w2 !! h = None ∧ w_fs w2 = w_fs w.
Proof.
  apply (create_then_free_restores _ _ "m.gguf" "out.gguf").
  - repeat split; first [ by left | right; eexists; reflexivity ].
  - reflexivity.
  - reflexivity.
  - by vm_compute.
Defined.

(** ** Detection and validation *)

Ltac split_answers :=
  repeat match goal with
         | |- context [match ?r with Yields _ => _ | Fails _ => _ end] =>
             lazymatch r with
             | Fs.exists_ _ _ => idtac
             | Fs.is_directory _ _ => idtac
             end;
             let E := fresh "E" in destruct r as [[]|?] eqn:E
         | |- context [if ?b then _ else _] => destruct b
         end.

Lemma detect_format_impl_tags fs path format :
  detect_format_impl fs path = Yields format →
  format = "" ∨ format ∈ FORMAT_TAGS.
Proof.
  unfold detect_format_impl, or_else, then_ask, FORMAT_TAGS.
  split_answers; cbv zeta; split_answers; intros [= <-];
    first [ by left | right; repeat first [ by left | right ] ].
Qed.

Lemma detect_format_impl_exists fs path format :
  detect_format_impl fs path = Yields format → format ≠ "" →
  Fs.exists_ fs path = Yields true.
Proof.
  unfold detect_format_impl, then_ask at 1.
  destruct (Fs.exists_ fs path) as [[]|e]; [done| |done].
  by intros [= <-].
Qed.

Lemma exists_error fs p e :
  Fs.exists_ fs p = Fails e → ∃ reason q, e = Fs.error "status" reason q.
Proof.
  unfold Fs.exists_. destruct (fs !! p) as [[]|]; try done.
  intros [= <-]. by eexists _, _.
Qed.

Lemma is_directory_error fs p e :
  Fs.is_directory fs p = Fails e → ∃ reason q, e = Fs.error "status" reason q.
Proof.
  unfold Fs.is_directory. destruct (fs !! p) as [[]|]; try done.
  intros [= <-]. by eexists _, _.
Qed.

Lemma detect_format_impl_error fs path e :
  detect_format_impl fs path = Fails e →
  ∃ reason q, e = Fs.error "status" reason q.
Proof.
  unfold detect_format_impl, or_else, then_ask.
  split_answers; cbv zeta; split_answers; try done; intros [= <-];
    first [ by eapply exists_error | by eapply is_directory_error ].
Qed.

Lemma detect_format_run w path s :
  cstr_at (w_heap w) path = Some s →
  gguf_detect_format path w
  = match detect_format_impl (w_fs w) s with
    | Yields format =>
        (Returns (if Str.eqb format "" then None else Some format),
         with_format_str format w)
    | Fails e => (Throws e, w)
    end.
Proof.
  intros Hs. unfold gguf_detect_format.
  assert (is_null path = false) as -> by (by destruct path).
  unfold bind, read_cstr, get, ask, modify, ret. rewrite Hs.
  by destruct (detect_format_impl _ _).
Qed.

(** X9: what [gguf_detect_format] can do. On a readable path it either
    returns, changing nothing but its own buffer, or lets the
    [filesystem_error] of a status query through, changing nothing at all.
    A result is null or one of the five tags [gguf], [pytorch],
    [safetensors], [tensorflow], [flax]; a tag is only ever returned for a
    path that exists, and the buffer then holds that tag. *)
Theorem detect_format_tags w path s :
  cstr_at (w_heap w) path = Some s →
  match detect_format_impl (w_fs w) s with
  | Yields format =>
      ∃ r,
        gguf_detect_format path w = (Returns r, with_format_str format w) ∧
        match r with
        | Some tag =>
            tag ∈ FORMAT_TAGS ∧ Fs.exists_ (w_fs w) s = Yields true ∧
            tag = format
        | None => format = ""
        end
  | Fails e =>
      gguf_detect_format path w = (Throws e, w) ∧
      ∃ reason q, e = Fs.error "status" reason q
  end.
Proof.
  intros Hs. pose proof (detect_format_run w path s Hs) as R.
  destruct (detect_format_impl (w_fs w) s) as [format|e] eqn:D.
  - eexists. split; [exact R|].
    unfold Str.eqb. case_bool_decide as E; [done|].
    split_and!; [|by eapply detect_format_impl_exists|done].
    by destruct (detect_format_impl_tags _ _ _ D).
  - split; [exact R|]. by eapply detect_format_impl_error.
Qed.

Lemma detect_format_tags_witness :
  (∃ r,
     gguf_detect_format (Static "hf") empty_world
       = (Returns r, with_format_str "safetensors" empty_world) ∧
     match r with
     | Some tag =>
         tag ∈ FORMAT_TAGS ∧ Fs.exists_ (w_fs empty_world) "hf" = Yields true ∧
         tag = "safetensors"
     | None => "safetensors" = ""
     end) ∧
  (gguf_detect_format (Static "sealed/model.bin") empty_world
     = (Throws (Fs.error "status" "Permission denied" "sealed/model.bin"),
        empty_world) ∧
   ∃ reason q,
     Fs.error "status" "Permission denied" "sealed/model.bin"
     = Fs.error "status" reason q).
Proof.
  split.
  - exact (detect_format_tags empty_world (Static "hf") "hf" eq_refl).
  - exact (detect_format_tags empty_world (Static "sealed/model.bin")
             "sealed/model.bin" eq_refl).
Defined.

Lemma validate_input_step w h c inp info :
  w_ctxs w !! h = Some c →
  cstr_at (w_heap w) (input_path (params c)) = Some inp →
  gguf_validate_input (Some h) info w =
    match detect_format_impl (w_fs w) inp with
    | Fails e => (Throws e, w)
    | Yields format =>
        if Str.eqb format "" then
          (Returns GGUF_ERROR_INVALID_FORMAT,
           with_last_error ("Could not detect model format from: " +:+ inp) w)
        else
          (log h 1 ("Detected format: " +:+ format) ;;;
           (if is_null info then ret tt
            else
              write_info info zero_info ;;;
              ok <- extract_model_info inp info ;;
              when (negb ok)
                (log h 2
                   "Warning: Could not extract full model info from config") ;;;
              try_catch
                (dir <- ask (Fs.is_directory (w_fs w) inp) ;;
                 if dir then
                   entries <- ask (Fs.open_recursive (w_fs w) inp) ;;
                   total <- total_size entries 0 ;;
                   modify_info info (set_mi_file_size total)
                 else
                   n <- file_size inp ;;
                   modify_info info (set_mi_file_size n))
                (λ e, log h 2 ("Warning: Could not determine file size: "
                               +:+ what e))) ;;;
           ret GGUF_SUCCESS) w
    end.
Proof.
  intros Hc Hi. unfold gguf_validate_input.
  unfold bind at 1, ctx_get. rewrite Hc. cbv beta iota.
  unfold bind at 1, read_cstr. rewrite Hi. cbv beta iota.
  unfold bind at 1, get. cbv beta iota zeta.
  unfold bind at 1, ask at 1.
  destruct (detect_format_impl (w_fs w) inp) as [format|e]; [|done].
  by destruct (Str.eqb _ _).
Qed.

(** X10: validation and detection agree. For a live context whose input
    path is readable, [gguf_validate_input] without a [ModelInfo] returns
    [GGUF_SUCCESS] exactly when [gguf_detect_format] on the same path
    returns a tag, and [GGUF_ERROR_INVALID_FORMAT] exactly when it returns
    null; with a [ModelInfo], a validation that returns returns the same
    code. A successful validation leaves the last error as it was; a
    failing one names the path there and changes nothing else. And when
    the detector cannot determine a status, the same [filesystem_error]
    leaves both calls, with or without a [ModelInfo], and neither has
    changed anything. *)
Theorem validate_agrees_with_detect w h c inp :
  w_ctxs w !! h = Some c →
  cstr_at (w_heap w) (input_path (params c)) = Some inp →
  match detect_format_impl (w_fs w) inp with
  | Yields _ =>
      ∃ tag w2 r w1,
        gguf_detect_format (input_path (params c)) w = (Returns tag, w2) ∧
        gguf_validate_input (Some h) NULL w = (Returns r, w1) ∧
        (∀ info r' w1',
           gguf_validate_input (Some h) info w = (Returns r', w1') → r' = r) ∧
        match tag with
        | Some t =>
            r = GGUF_SUCCESS ∧ g_last_error w1 = g_last_error w
        | None =>
            r = GGUF_ERROR_INVALID_FORMAT ∧
            w1 = with_last_error
                   ("Could not detect model format from: " +:+ inp) w
        end
  | Fails e =>
      gguf_detect_format (input_path (params c)) w = (Throws e, w) ∧
      ∀ info, gguf_validate_input (Some h) info w = (Throws e, w)
  end.
Proof.
  intros Hc Hi.
  pose proof (detect_format_run w _ _ Hi) as Ed.
  pose proof (λ info, validate_input_step w h c inp info Hc Hi) as V.
  destruct (detect_format_impl (w_fs w) inp) as [format|e]; [|done].
  unfold Str.eqb in V, Ed.
  destruct (decide (format = "")) as [Hn|Hne].
  - rewrite bool_decide_eq_true_2 in Ed by done.
    rewrite bool_decide_eq_true_2 in V by done.
    eexists _, _, GGUF_ERROR_INVALID_FORMAT, _.
    split; [exact Ed|]. split_and!.
    + by rewrite V.
    + intros info r' w1'. rewrite V. congruence.
    + done.
    + reflexivity.
  - rewrite bool_decide_eq_false_2 in Ed by done.
    rewrite bool_decide_eq_false_2 in V by done.
    assert (∃ wl, log h 1 ("Detected format: " +:+ format) w
                  = (Returns tt, wl) ∧ g_last_error wl = g_last_error w)
      as (wl & El & Hl).
    { unfold log, bind, ctx_get, ret, emit, modify. rewrite Hc. cbn.
      destruct (log_cb (params c)); cbn; eexists; split; reflexivity. }
    eexists _, _, GGUF_SUCCESS, wl.
    split; [exact Ed|]. split_and!.
    + rewrite V. unfold bind. rewrite El. reflexivity.
    + intros info r' w1'. rewrite V. unfold bind at 1. rewrite El.
      unfold bind at 1.
      match goal with
      | |- context [(if is_null info then ?a else ?b) wl] =>
          destruct ((if is_null info then a else b) wl) as [[[]|e|] wi]
      end; try done.
      unfold ret. congruence.
    + done.
    + done.
Qed.

Lemma validate_agrees_with_detect_witness :
  (∃ tag w2 r w1,
     gguf_detect_format (input_path (params (job false)))
       (job_world "x.pt" "f16") = (Returns tag, w2) ∧
     gguf_validate_input (Some 1%positive) NULL (job_world "x.pt" "f16")
       = (Returns r, w1) ∧
     (∀ info r' w1',
        gguf_validate_input (Some 1%positive) info (job_world "x.pt" "f16")
          = (Returns r', w1') → r' = r) ∧
     match tag with
     | Some t =>
         r = GGUF_SUCCESS ∧
         g_last_error w1 = g_last_error (job_world "x.pt" "f16")
     | None =>
         r = GGUF_ERROR_INVALID_FORMAT ∧
         w1 = with_last_error
                ("Could not detect model format from: " +:+ "x.pt")
                (job_world "x.pt" "f16")
     end) ∧
  (let w := job_world "sealed/model.bin" "f16" in
   let e := Fs.error "status" "Permission denied" "sealed/model.bin" in
   gguf_detect_format (input_path (params (job false))) w = (Throws e, w) ∧
   ∀ info, gguf_validate_input (Some 1%positive) info w = (Throws e, w)).
Proof.
  split.
  - exact (validate_agrees_with_detect (job_world "x.pt" "f16") 1%positive
             (job false) "x.pt" eq_refl eq_refl).
  - exact (validate_agrees_with_detect (job_world "sealed/model.bin" "f16")
             1%positive (job false) "sealed/model.bin" eq_refl eq_refl).
Defined.

(** ** File verification *)

Lemma strncmp_magic content :
  strncmp_differs 4 (Str.take 4 content) "GGUF" = Some false
  ↔ String.prefix "GGUF" content = true.
Proof.
  destruct content as [|a1 [|a2 [|a3 [|a4 rest]]]]; cbn -[ascii_dec];
    repeat (destruct (ascii_dec _ _) as [|]; subst; cbn -[ascii_dec]);
    repeat (case_bool_decide; subst; cbn -[ascii_dec]);
    try done; try (split; discriminate).
  by destruct rest.
Qed.

Lemma strncmp_magic_long content :
  (4 ≤ String.length content)%nat →
  strncmp_differs 4 (Str.take 4 content) "GGUF" ≠ None.
Proof.
  destruct content as [|a1 [|a2 [|a3 [|a4 rest]]]]; cbn; try lia.
  intros _. repeat (case_bool_decide; subst; cbn; try done).
Qed.

Lemma open_read_exists fs p content :
  Fs.open_read fs p = Some content → Fs.exists_ fs p = Yields true.
Proof.
  unfold Fs.open_read, Fs.exists_.
  by destruct (fs !! p) as [[[]|[]| |]|].
Qed.

(** X11: [gguf_verify_file] decides on the first four bytes alone. For a
    file that opens, a call that returns returns [GGUF_SUCCESS] when the
    content begins with the bytes [GGUF] and [GGUF_ERROR_INVALID_FORMAT]
    with the message [Invalid GGUF magic number] otherwise, whatever
    follows the magic; and with at least four bytes in the file the call
    does return. Without a [ModelInfo] an accepted file leaves the world
    untouched. *)
Theorem verify_file_magic w path s content :
  cstr_at (w_heap w) path = Some s →
  Fs.open_read (w_fs w) s = Some content →
  (∀ info r w1,
     gguf_verify_file path info w = (Returns r, w1) →
     if String.prefix "GGUF" content then r = GGUF_SUCCESS
     else r = GGUF_ERROR_INVALID_FORMAT ∧
          w1 = with_last_error "Invalid GGUF magic number" w) ∧
  ((4 ≤ String.length content)%nat →
   gguf_verify_file path NULL w =
     if String.prefix "GGUF" content then (Returns GGUF_SUCCESS, w)
     else (Returns GGUF_ERROR_INVALID_FORMAT,
           with_last_error "Invalid GGUF magic number" w)).
Proof.
  intros Hs Ho.
  assert (∀ info,
    gguf_verify_file path info w =
      match strncmp_differs 4 (Str.take 4 content) "GGUF" with
      | None => (Undefined, w)
      | Some true =>
          (Returns GGUF_ERROR_INVALID_FORMAT,
           with_last_error "Invalid GGUF magic number" w)
      | Some false =>
          ((if is_null info then ret tt
            else
              write_info info zero_info ;;;
              n <- file_size s ;;
              modify_info info (set_mi_file_size n) ;;;
              modify_info info (set_mi_model_type (strncpy "gguf" 63))) ;;;
           ret GGUF_SUCCESS) w
      end) as V.
  { intros info. unfold gguf_verify_file.
    assert (is_null path = false) as -> by (by destruct path).
    unfold bind at 1, read_cstr. rewrite Hs. cbv beta iota.
    unfold bind at 1, get. cbv beta iota.
    unfold bind at 1, ask at 1.
    rewrite (open_read_exists _ _ _ Ho), Ho. cbn [negb]. cbv zeta.
    by destruct (strncmp_differs _ _ _) as [[]|]. }
  pose proof (strncmp_magic content) as M.
  split.
  - intros info r w1. rewrite V.
    destruct (strncmp_differs _ _ _) as [[]|]; [| |done].
    + destruct (String.prefix "GGUF" content).
      * by destruct M as [_ M]; specialize (M eq_refl).
      * intros [= <- <-]. done.
    + destruct M as [M _]. rewrite (M eq_refl). unfold bind.
      match goal with
      | |- context [(if is_null info then ?a else ?b) w] =>
          destruct ((if is_null info then a else b) w) as [[[]|e|] wi]
      end; try done.
      unfold ret. congruence.
  - intros Hlen. rewrite V. pose proof (strncmp_magic_long _ Hlen) as L.
    destruct (strncmp_differs _ _ _) as [[]|]; [| |done].
    + destruct (String.prefix "GGUF" content); [|done].
      by destruct M as [_ M]; specialize (M eq_refl).
    + destruct M as [M _]. by rewrite (M eq_refl).
Qed.

Lemma verify_file_magic_witness :
  (∀ info r w1,
     gguf_verify_file (Static "hf/model.safetensors") info empty_world
       = (Returns r, w1) →
     r = GGUF_ERROR_INVALID_FORMAT ∧
     w1 = with_last_error "Invalid GGUF magic number" empty_world) ∧
  gguf_verify_file (Static "hf/model.safetensors") NULL empty_world =
    (Returns GGUF_ERROR_INVALID_FORMAT,
     with_last_error "Invalid GGUF magic number" empty_world).
Proof.
  destruct (verify_file_magic empty_world (Static "hf/model.safetensors")
              "hf/model.safetensors" "tensors" eq_refl eq_refl) as [H1 H2].
  split; [exact H1|]. apply H2. cbn. lia.
Defined.

(** X12: what [gguf_verify_file] reports of an accepted file. For a
    readable regular file that begins with [GGUF] and a caller's
    [ModelInfo], the call returns [GGUF_SUCCESS] and leaves in the struct
    the size of the file and the model type [gguf], every other field
    zeroed whatever the struct held and whatever the file contains; no
    other cell of the store, no context and no trace entry changes. *)
Theorem verify_file_info w path s content a i0 :
  cstr_at (w_heap w) path = Some s →
  w_fs w !! s = Some (Regular true content) →
  String.prefix "GGUF" content = true →
  w_heap w !! a = Some (CInfo i0) →
  gguf_verify_file path (Heap a) w =
    (Returns GGUF_SUCCESS,
     with_heap
       (<[a := CInfo {| mi_model_type := "gguf"; mi_architecture := "";
                        mi_parameter_count := 0; mi_num_layers := 0;
                        mi_hidden_size := 0; mi_vocab_size := 0;
                        mi_context_length := 0; mi_quantization := "";
                        mi_file_size := Z.of_nat (String.length content) |}]>
          (w_heap w)) w).
Proof.
  intros Hs Hf Hp Ha. unfold gguf_verify_file.
  assert (is_null path = false) as -> by (by destruct path).
  assert (Fs.open_read (w_fs w) s = Some content) as Ho
    by (unfold Fs.open_read; by rewrite Hf).
  unfold bind at 1, read_cstr. rewrite Hs. cbv beta iota.
  unfold bind at 1, get. cbv beta iota.
  unfold bind at 1, ask at 1.
  rewrite (open_read_exists _ _ _ Ho), Ho. cbn [negb]. cbv zeta.
  apply strncmp_magic in Hp. rewrite Hp.
  assert (Fs.file_size (w_fs w) s = Yields (Z.of_nat (String.length content)))
    as Hsz by (unfold Fs.file_size; by rewrite Hf).
  assert (strncpy "gguf" 63 = "gguf") as -> by (vm_compute; reflexivity).
  unfold file_size, modify_info, write_info, read_info,
    modify, get, ask, ret, bind.
  cbn -[Fs.file_size]. rewrite Ha. cbn -[Fs.file_size]. rewrite Hsz.
  repeat (cbn; rewrite ?lookup_insert_eq, ?insert_insert_eq).
  reflexivity.
Qed.

Lemma verify_file_info_witness :
  let w := with_heap {[ 9%positive := CInfo zero_info ]} empty_world in
  gguf_verify_file (Static "m.gguf") (Heap 9) w =
    (Returns GGUF_SUCCESS,
     with_heap
       (<[9%positive :=
            CInfo {| mi_model_type := "gguf"; mi_architecture := "";
                     mi_parameter_count := 0; mi_num_layers := 0;
                     mi_hidden_size := 0; mi_vocab_size := 0;
                     mi_context_length := 0; mi_quantization := "";
                     mi_file_size := Z.of_nat (String.length "GGUF") |}]>
          (w_heap w)) w).
Proof.
  intros w.
  apply (verify_file_info w (Static "m.gguf") "m.gguf" "GGUF" 9%positive
           zero_info); reflexivity.
Defined.

(** ** The configuration file *)

Lemma remove_if_clean p s :
  Forall (λ ch, p ch = false) (String.list_ascii_of_string (Str.remove_if p s)).
Proof.
  induction s as [|a s IH]; cbn; [constructor|].
  destruct (p a) eqn:E; [exact IH|]. cbn. by constructor.
Qed.

Lemma parse_line_clean config line :
  map_Forall (λ k v,
    Forall (λ ch, strip_key ch = false) (String.list_ascii_of_string k) ∧
    Forall (λ ch, strip_value ch = false) (String.list_ascii_of_string v)) config →
  map_Forall (λ k v,
    Forall (λ ch, strip_key ch = false) (String.list_ascii_of_string k) ∧
    Forall (λ ch, strip_value ch = false) (String.list_ascii_of_string v))
    (parse_line config line).
Proof.
  intros H. unfold parse_line. destruct (Str.find _ _) as [colon|]; [|done].
  apply map_Forall_insert_2; [|done]. split; apply remove_if_clean.
Qed.

(** X13: the table [extract_model_info] reads out of [config.json] is
    normalised. No key it holds contains a double quote, a space or a tab,
    and no value contains a double quote, a comma, a space or a tab,
    whatever the file contains. *)
Theorem parse_config_normalised content k v :
  parse_config content !! k = Some v →
  Forall (λ ch, strip_key ch = false) (String.list_ascii_of_string k) ∧
  Forall (λ ch, strip_value ch = false) (String.list_ascii_of_string v).
Proof.
  unfold parse_config.
  assert (∀ ls config,
    map_Forall (λ k v,
      Forall (λ ch, strip_key ch = false) (String.list_ascii_of_string k) ∧
      Forall (λ ch, strip_value ch = false) (String.list_ascii_of_string v)) config →
    map_Forall (λ k v,
      Forall (λ ch, strip_key ch = false) (String.list_ascii_of_string k) ∧
      Forall (λ ch, strip_value ch = false) (String.list_ascii_of_string v))
      (fold_left parse_line ls config)) as H.
  { induction ls as [|l ls IH]; intros config Hc; cbn; [done|].
    apply IH. by apply parse_line_clean. }
  intros Hk. exact (H _ ∅ (map_Forall_empty _) k v Hk).
Qed.

Lemma parse_config_normalised_witness :
  Forall (λ ch, strip_key ch = false) (String.list_ascii_of_string "model_type") ∧
  Forall (λ ch, strip_value ch = false) (String.list_ascii_of_string "llama").
Proof.
  apply (parse_config_normalised
           (unlines [ "{";
                      "  " +:+ quoted "model_type" +:+ " : "
                        +:+ quoted "llama" +:+ ",";
                      "}" ])).
  vm_compute. reflexivity.
Defined.

(** ** Creation that fails *)

Lemma triple_any {A} (m : M A) :
  triple (λ _, True) m (λ _ _, True) (λ _, True).
Proof. intros w _. by destruct (m w) as [[]]. Qed.

(** X14: a creation that fails fails cleanly, and only for the three
    reasons the code checks. When [gguf_create_context] returns null, the
    parameters were null, or one of the two paths was, or the input path
    does not exist; the last error is then a non-empty message and nothing
    else has changed: no context was made, no string copied, the log
    callback not called. *)
Theorem create_failure_is_clean arg w w1 :
  gguf_create_context arg w = (Returns None, w1) →
  (∃ msg, msg ≠ "" ∧ w1 = with_last_error msg w) ∧
  (arg = None ∨
   ∃ p, arg = Some p ∧
        (input_path p = NULL ∨ output_path p = NULL ∨
         ∃ inp, cstr_at (w_heap w) (input_path p) = Some inp ∧
                Fs.exists_ (w_fs w) inp = Yields false)).
Proof.
  unfold gguf_create_context. destruct arg as [p|].
  2:{ intros [= <-]. split; [|by left].
      eexists. split; [|reflexivity]. discriminate. }
  destruct (is_null (input_path p) || is_null (output_path p)) eqn:N.
  { intros [= <-]. split; [eexists; split; [|reflexivity]; discriminate|].
    right. exists p. split; [done|].
    destruct (input_path p), (output_path p); auto; discriminate N. }
  unfold bind at 1, read_cstr at 1.
  destruct (cstr_at (w_heap w) (input_path p)) as [inp|] eqn:Hi; [|done].
  unfold bind at 1, get at 1. unfold bind at 1, ask at 1.
  destruct (Fs.exists_ (w_fs w) inp) as [[]|e] eqn:Hex; cbn [negb];
    [| |done].
  2:{ intros [= <-]. split.
      - eexists. split; [|reflexivity]. apply append_nonempty.
      - right. exists p. split; [done|]. right. right. by exists inp. }
  intros E. exfalso.
  match type of E with
  | ?m w = _ =>
      assert (triple (λ _, True) m (λ r _, r ≠ None) (λ _, True)) as T
  end.
  { eapply triple_bind; [apply triple_any|]. intros h.
    do 5 (eapply triple_bind; [apply triple_any|]; intros ?).
    do 3 (eapply triple_bind; [apply triple_any|]; intros ?).
    by apply triple_ret. }
  specialize (T w I). rewrite E in T. done.
Qed.

Lemma create_failure_is_clean_witness :
  (∃ msg, msg ≠ "" ∧
     (gguf_create_context (Some (sample_params "nowhere" "out.gguf" "f16"))
        empty_world).2 = with_last_error msg empty_world) ∧
  (Some (sample_params "nowhere" "out.gguf" "f16") = None ∨
   ∃ p, Some (sample_params "nowhere" "out.gguf" "f16") = Some p ∧
        (input_path p = NULL ∨ output_path p = NULL ∨
         ∃ inp, cstr_at (w_heap empty_world) (input_path p) = Some inp ∧
                Fs.exists_ (w_fs empty_world) inp = Yields false)).
Proof.
  apply (create_failure_is_clean
           (Some (sample_params "nowhere" "out.gguf" "f16")) empty_world).
  vm_compute. reflexivity.
Defined.

(** ** Validation against conversion *)






(** ** The size validation reports *)




Section size_invariant.
Variable a : positive.
Variable n : Z.
Variable fs : filesystem.








End size_invariant.



(** A directory that cannot be listed, and one with a sub-directory that
    cannot: both are detected by the files they hold and validated with
    [GGUF_SUCCESS], the size left at zero although each holds a file of
    seven bytes. *)
Example validate_unwalkable_directory :
  (∀ inp, inp ∈ ["vault"; "deep"] →
     let '(r, w') := gguf_validate_input (Some 1%positive) (Heap 9)
                       (job_world inp "f16") in
     r = Returns GGUF_SUCCESS ∧
     (∃ i, w_heap w' !! 9%positive = Some (CInfo i) ∧ mi_file_size i = 0) ∧
     input_size sample_fs inp = 0) ∧
  entry_size sample_fs "vault/model.safetensors" = 7 ∧
  entry_size sample_fs "deep/model.safetensors" = 7 ∧
  input_size sample_fs "hf" ≠ 0.
Proof.
  split_and!; [|by vm_compute..].
  intros inp Hin.
  repeat (apply elem_of_cons in Hin as [->|Hin];
          [vm_compute; split_and!; [done| |done]; by eexists|]).
  by apply elem_of_nil in Hin.
Qed.


(** ** Default parameters *)

(** X17: what [gguf_default_params] leaves in the caller's struct does not
    depend on what the struct held; its quantization is [f16], a listed
    type; and as both paths are null, [gguf_create_context] refuses it,
    setting the last error and changing nothing else, until the caller has
    filled them in. *)
Theorem default_params_need_paths p0 p1 w :
  ∃ d,
    gguf_default_params (Some p0) w = (Returns (Some d), w) ∧
    gguf_default_params (Some p1) w = (Returns (Some d), w) ∧
    cstr_at (w_heap w) (quantization d) = Some "f16" ∧
    valid_quant "f16" QUANTIZATION_TYPES = true ∧
    gguf_create_context (Some d) w
    = (Returns None,
       with_last_error
         "Invalid parameters: input_path and output_path are required" w).
Proof. eexists. split_and!; reflexivity. Qed.

(** ** Exceptions *)

Lemma throws_only_weaken {A} (ok ok' : exn → Prop) (m : M A) :
  (∀ e, ok e → ok' e) → throws_only ok m → throws_only ok' m.
Proof. intros H Hm w e w' E. eapply H, Hm, E. Qed.

Lemma throws_only_ret {A} ok (a : A) : throws_only ok (ret a).
Proof. by intros w e w'. Qed.

Lemma throws_only_bind {A B} ok (m : M A) (k : A → M B) :
  throws_only ok m → (∀ a, throws_only ok (k a)) →
  throws_only ok (bind m k).
Proof.
  intros Hm Hk w e w'. unfold bind.
  destruct (m w) as [[a|e0|] w1] eqn:E.
  - apply Hk.
  - intros [= <- <-]. eapply Hm, E.
  - done.
Qed.

(** A handler for [std::exception] contains what its body throws if the
    body throws nothing else. *)
Lemma throws_only_try_catch {A} ok (body : M A) handler :
  throws_only (λ e, is_std_exception e = true) body →
  (∀ e, throws_only ok (handler e)) →
  throws_only ok (try_catch body handler).
Proof.
  intros Hb Hk w e w'. unfold try_catch.
  destruct (body w) as [[a|e0|] w1] eqn:E; try done.
  rewrite (Hb _ _ _ E). apply Hk.
Qed.

Lemma throws_only_ask {A} (ok : exn → Prop) (r : answer A) :
  (∀ e, r = Fails e → ok e) → throws_only ok (ask r).
Proof.
  intros H w e w'. unfold ask. destruct r as [a|e0]; [done|].
  intros [= <- <-]. by apply H.
Qed.

Lemma throws_only_when ok b m :
  throws_only ok m → throws_only ok (when b m).
Proof. destruct b; [done | intros _; apply throws_only_ret]. Qed.

(** The primitives that raise nothing. *)
Lemma throws_only_get {A} ok (f : world → A) : throws_only ok (get f).
Proof. by intros w e w'. Qed.

Lemma throws_only_modify ok f : throws_only ok (modify f).
Proof. by intros w e w'. Qed.

Lemma throws_only_ctx_get ok h : throws_only ok (ctx_get h).
Proof. intros w e w'. unfold ctx_get. by destruct (_ !! _). Qed.

Lemma throws_only_read_cstr ok p : throws_only ok (read_cstr p).
Proof. intros w e w'. unfold read_cstr. by destruct (cstr_at _ _). Qed.

Lemma throws_only_log ok h level msg : throws_only ok (log h level msg).
Proof.
  unfold log. apply throws_only_bind; [apply throws_only_ctx_get|].
  intros c. destruct (log_cb (params c));
    [apply throws_only_modify | apply throws_only_ret].
Qed.

Lemma throws_only_read_info ok p : throws_only ok (read_info p).
Proof.
  intros w e w'. unfold read_info. destruct p as [| |a]; try done.
  by destruct (w_heap w !! a) as [[]|].
Qed.

Lemma throws_only_write_info ok p i : throws_only ok (write_info p i).
Proof.
  unfold write_info. apply throws_only_bind; [apply throws_only_read_info|].
  intros _. destruct p; first [done | apply throws_only_modify].
Qed.

Lemma throws_only_modify_info ok p f : throws_only ok (modify_info p f).
Proof.
  unfold modify_info. apply throws_only_bind; [apply throws_only_read_info|].
  intros i. apply throws_only_write_info.
Qed.

Lemma throws_only_stoul s : throws_only from_stoul (stoul s).
Proof.
  intros w e w'. unfold stoul, from_stoul.
  destruct (skip_space (Str.c_str s)) as [|[[] [] [] [] [] [] [] []] ?];
    cbv zeta beta iota;
    match goal with
    | |- context [digits ?x] => destruct (digits x)
    end;
    try (intros [= <- <-]; by left);
    match goal with
    | |- context [ULONG_MAX <? ?v] => destruct (ULONG_MAX <? v)
    end;
    first [ intros [= <- <-]; by right | done ].
Qed.

Lemma throws_only_extract_model_info path info :
  throws_only
    (λ e, from_stoul e ∨ ∃ reason q, e = Fs.error "status" reason q)
    (extract_model_info path info).
Proof.
  unfold extract_model_info. apply throws_only_bind; [apply throws_only_get|].
  intros fs.
  apply throws_only_bind.
  { apply throws_only_ask. intros e He. right.
    by eapply is_directory_error. }
  intros dir.
  apply throws_only_bind.
  { apply throws_only_ask. intros e He. right. by eapply exists_error. }
  intros found.
  cbv zeta. destruct (negb _); [apply throws_only_ret|].
  destruct (Fs.open_read _ _) as [content|]; [|apply throws_only_ret].
  repeat (apply throws_only_bind; [|intros _]);
    try apply throws_only_ret;
    unfold if_key; destruct (_ !! _); try apply throws_only_ret;
    first [ apply throws_only_modify_info
          | unfold store_u32; apply throws_only_bind;
            [eapply throws_only_weaken; [|apply throws_only_stoul]; by left
            |intros ?; apply throws_only_modify_info] ].
Qed.

Lemma throws_only_file_size p :
  throws_only (λ e, is_std_exception e = true) (file_size p).
Proof.
  unfold file_size. apply throws_only_bind; [apply throws_only_get|].
  intros fs. apply throws_only_ask. apply file_size_fails.
Qed.

Lemma throws_only_total_size entries total :
  throws_only (λ e, is_std_exception e = true) (total_size entries total).
Proof.
  revert total. induction entries as [|entry rest IH]; intros total;
    cbn [total_size]; [apply throws_only_ret|].
  apply throws_only_bind; [apply throws_only_get|]. intros fs.
  apply throws_only_bind;
    [apply throws_only_ask, is_regular_file_fails|]. intros regular.
  apply throws_only_bind.
  { destruct regular; [|apply throws_only_ret].
    apply throws_only_bind; [apply throws_only_file_size|]. intros n.
    apply throws_only_ret. }
  intros total'.
  apply throws_only_bind; [apply throws_only_ask, descend_fails|].
  intros _. apply IH.
Qed.

(** X18: the exceptions that leave [gguf_validate_input] are the two of
    [std::stoul], raised on a [config.json] value that is no number or too
    large a one, and the [filesystem_error] of a status query, raised where
    the detector or the probe for [config.json] cannot determine the status
    of a path; what the file system raises while the size is taken is
    caught inside. *)
Theorem validate_throws_stoul_or_status ctx info w e w' :
  gguf_validate_input ctx info w = (Throws e, w') →
  e = invalid_argument "stoul" ∨ e = out_of_range "stoul" ∨
  ∃ reason q, e = Fs.error "status" reason q.
Proof.
  intros E.
  cut (from_stoul e ∨ ∃ reason q, e = Fs.error "status" reason q).
  { unfold from_stoul. tauto. }
  revert w e w' E.
  change (throws_only
            (λ e, from_stoul e ∨ ∃ reason q, e = Fs.error "status" reason q)
            (gguf_validate_input ctx info)).
  unfold gguf_validate_input. destruct ctx as [h|].
  2:{ apply throws_only_bind; [apply throws_only_modify|].
      intros _. apply throws_only_ret. }
  apply throws_only_bind; [apply throws_only_ctx_get|]. intros c.
  apply throws_only_bind; [apply throws_only_read_cstr|]. intros inp.
  apply throws_only_bind; [apply throws_only_get|]. intros fs.
  apply throws_only_bind.
  { apply throws_only_ask. intros e He. right.
    by eapply detect_format_impl_error. }
  intros format.
  destruct (Str.eqb _ _).
  { apply throws_only_bind; [apply throws_only_modify|].
    intros _. apply throws_only_ret. }
  apply throws_only_bind; [apply throws_only_log|]. intros _.
  apply throws_only_bind; [|intros _; apply throws_only_ret].
  destruct (is_null info); [apply throws_only_ret|].
  apply throws_only_bind; [apply throws_only_write_info|]. intros _.
  apply throws_only_bind; [apply throws_only_extract_model_info|]. intros ok.
  apply throws_only_bind; [apply throws_only_when, throws_only_log|].
  intros _. apply throws_only_try_catch; [|intros e; apply throws_only_log].
  apply throws_only_bind; [apply throws_only_ask, is_directory_fails|].
  intros dir. destruct dir.
  - apply throws_only_bind; [apply throws_only_ask, open_recursive_fails|].
    intros entries.
    apply throws_only_bind; [apply throws_only_total_size|]. intros total.
    apply throws_only_modify_info.
  - apply throws_only_bind; [apply throws_only_file_size|]. intros n.
    apply throws_only_modify_info.
Qed.

Lemma validate_throws_stoul_or_status_witness :
  (invalid_argument "stoul" = invalid_argument "stoul"
   ∨ invalid_argument "stoul" = out_of_range "stoul"
   ∨ ∃ reason q, invalid_argument "stoul" = Fs.error "status" reason q) ∧
  (Fs.error "status" "Permission denied" "sealed/model.bin"
     = invalid_argument "stoul"
   ∨ Fs.error "status" "Permission denied" "sealed/model.bin"
     = out_of_range "stoul"
   ∨ ∃ reason q, Fs.error "status" "Permission denied" "sealed/model.bin"
                 = Fs.error "status" reason q).
Proof.
  split.
  - apply (validate_throws_stoul_or_status (Some 1%positive) (Heap 9)
             (job_world "bad/model.gguf" "f16") _
             (gguf_validate_input (Some 1%positive) (Heap 9)
                (job_world "bad/model.gguf" "f16")).2).
    vm_compute. reflexivity.
  - apply (validate_throws_stoul_or_status (Some 1%positive) (Heap 9)
             (job_world "sealed/model.bin" "f16") _
             (job_world "sealed/model.bin" "f16")).
    vm_compute. reflexivity.
Defined.



(** The quantizer throwing an [int]: the exception passes the handler,
    the context is left at the progress 0.3 of the running quantization
    and the backend initialised. *)
Example convert_on_faulty_quantizer :
  let w := with_backend faulty_backend (job_world "m.gguf" "q4_0") in
  let '(r, w') := gguf_convert (Some 1%positive) w in
  r = Throws (foreign "int") ∧
  (gguf_get_progress (Some 1%positive) w').1 = Returns (3 # 10)%Q ∧
  backend_calls w w' =
    [ LlamaBackendInit;
      LlamaModelQuantize "m.gguf" "out.gguf" LLAMA_FTYPE_MOSTLY_Q4_0 4 ] ∧
  g_last_error w' = g_last_error w.
Proof. vm_compute. by split_and!. Qed.
